(** * User synchronisation: a shallow embedding of the service, the
      repository and the API clients, with the properties of one pass.

    Sources embedded here:
    - [users/service.py]                    ([UsersService.sync_users])
    - [users/infrastructure/repository.py]  ([UsersRepository])
    - [users/infrastructure/api_client.py]  ([JsonPlaceholderClient],
                                             [FakerApiClient])
    - [users/models.py]                     ([User], [Address], [Company],
                                             [CreditCard])
    - [users/tasks.py]                      ([sync_users_task])
    and, of [users/service.py] again, [UsersService.get_all_users_data].

    Python values are a tree of JSON-like values.  The dictionaries the
    directory client returns live in a heap, because the repository
    changes them in place while the service holds them in two lists.
    The SQLAlchemy session is a record of four object lists; a flush
    assigns the keys and checks the constraints a pass can break.  A
    pass runs in a monad of state and exceptions, and the state keeps
    the list of the calls made, as the mock clients of the tests do.

    Outside the model: logging, the HTTP transport below
    [BaseApiClient._get] (its outcome is an input), and Celery: of the
    task around a pass, the commit, the rollback and the request for a
    retry appear.

    Plan of the file: the model; the vocabulary of the statements and
    the example data; the laws of the monad; then the properties, each
    after the lemmas it rests on. *)

From stdpp Require Import gmap strings list fin_maps pretty.
From Stdlib Require Import ZArith Lia.

#[local] Set Warnings "-register-all,-clear-no-such-hyp".

(* ================================================================== *)
(** ** Python values *)
(* ================================================================== *)

(** What [response.json()] can produce, and what the entity attributes
    hold.  Numbers are the integers: no code path here computes with a
    fraction. *)
Inductive pyval :=
| PNone
| PBool (b : bool)
| PInt (z : Z)
| PStr (s : string)
| PList (l : list pyval)
| PDict (d : gmap string pyval).

Abbreviation pydict := (gmap string pyval).

(** [bool(v)]: the test of [if not v]. *)
Definition truthy (v : pyval) : bool :=
  match v with
  | PNone => false
  | PBool b => b
  | PInt z => negb (z =? 0)%Z
  | PStr s => negb (String.eqb s EmptyString)
  | PList l => negb (Nat.eqb (length l) 0)
  | PDict d => negb (Nat.eqb (size d) 0)
  end.

(** [d.get(k)] on a dictionary: the entry, or [None]. *)
Definition dict_get (d : pydict) (k : string) : pyval :=
  default PNone (d !! k).

(** [d.pop(k, None)], as far as the dictionary is concerned. *)
Definition dict_pop (k : string) (d : pydict) : pydict := delete k d.

(* ================================================================== *)
(** ** Exceptions and the monad of a pass *)
(* ================================================================== *)

(** The exception classes a pass can meet.  [ValidationError] is the
    class the interface description names for [create_address]; no
    statement of the sources constructs it. *)
Inductive exn :=
| KeyError (key : string)
| TypeError (msg : string)
| StopIteration
| IntegrityError (msg : string)
| DataError (msg : string)
| ValidationError (msg : string)
| Exception (msg : string).

Inductive result (A : Type) :=
| Return (a : A)
| Raise (e : exn).
Arguments Return {A} a.
Arguments Raise {A} e.

(** *** Entities ([users/models.py]) *)

(** Every attribute holds the Python value it was given; an attribute
    that was not given reads [None].  [id] is [None] until the flush
    that inserts the row. *)
Module Address.
Record t := mk {
  id : pyval; street : pyval; suite : pyval; city : pyval;
  zipcode : pyval; geo_lat : pyval; geo_lng : pyval }.
End Address.

Module Company.
Record t := mk { id : pyval; name : pyval; catch_phrase : pyval; bs : pyval }.
End Company.

Module CreditCard.
Record t := mk {
  id : pyval; type : pyval; number : pyval; expiration : pyval; owner : pyval }.
End CreditCard.

Module User.
Record t := mk {
  id : pyval; name : pyval; username : pyval; email : pyval;
  phone : pyval; website : pyval;
  address_id : pyval; company_id : pyval; credit_card_id : pyval }.
End User.

(** What the session needs of a mapped class: its primary key, and the
    columns declared without [| None] ([Mapped[str]], [Mapped[int]]),
    which the table refuses to hold [None]. *)
Class Entity (T : Type) := {
  get_id : T → pyval;
  set_id : pyval → T → T;
  not_null : T → bool;
  get_set_id : ∀ v x, get_id (set_id v x) = v }.

Definition is_none (v : pyval) : bool :=
  match v with PNone => true | _ => false end.

Definition all_set (vs : list pyval) : bool := forallb (λ v, negb (is_none v)) vs.

#[global] Instance Address_entity : Entity Address.t := {|
  get_id := Address.id;
  set_id i a := Address.mk i (Address.street a) (Address.suite a) (Address.city a)
                  (Address.zipcode a) (Address.geo_lat a) (Address.geo_lng a);
  not_null a := all_set [Address.street a; Address.suite a; Address.city a;
                         Address.zipcode a; Address.geo_lat a; Address.geo_lng a];
  get_set_id _ _ := eq_refl |}.

#[global] Instance Company_entity : Entity Company.t := {|
  get_id := Company.id;
  set_id i c := Company.mk i (Company.name c) (Company.catch_phrase c) (Company.bs c);
  not_null c := all_set [Company.name c; Company.catch_phrase c; Company.bs c];
  get_set_id _ _ := eq_refl |}.

#[global] Instance CreditCard_entity : Entity CreditCard.t := {|
  get_id := CreditCard.id;
  set_id i c := CreditCard.mk i (CreditCard.type c) (CreditCard.number c)
                  (CreditCard.expiration c) (CreditCard.owner c);
  not_null c := all_set [CreditCard.type c; CreditCard.number c;
                         CreditCard.expiration c; CreditCard.owner c];
  get_set_id _ _ := eq_refl |}.

#[global] Instance User_entity : Entity User.t := {|
  get_id := User.id;
  set_id i u := User.mk i (User.name u) (User.username u) (User.email u)
                  (User.phone u) (User.website u) (User.address_id u)
                  (User.company_id u) (User.credit_card_id u);
  not_null u := all_set [User.name u; User.username u; User.email u; User.phone u;
                         User.website u; User.address_id u; User.company_id u];
  get_set_id _ _ := eq_refl |}.

(* ================================================================== *)
(** ** The session ([sqlalchemy.orm.Session], as the repository uses it) *)
(* ================================================================== *)

(** An object of the session is [Pending] after [add] and [Persistent]
    once a flush has inserted its row.  Rows that were in the database
    before the pass are [Persistent] objects. *)
Inductive instance_state := Pending | Persistent.

(** One list per mapped class, in the order of [add].  A Python
    reference to an entity is its position in the list of its class:
    [add] appends and a flush updates in place, so positions are stable. *)
Record Session := mkSession {
  addresses : list (instance_state * Address.t);
  companies : list (instance_state * Company.t);
  credit_cards : list (instance_state * CreditCard.t);
  users : list (instance_state * User.t) }.

Definition handle := nat.

(** Primary keys of the rows a table holds. *)
Definition row_id {T} `{Entity T} (r : instance_state * T) : option Z :=
  match r with
  | (Persistent, x) => match get_id x with PInt z => Some z | _ => None end
  | (Pending, _) => None
  end.

Definition table_ids {T} `{Entity T} (rows : list (instance_state * T)) : list Z :=
  omap row_id rows.

(** The autoincrement key: one more than the largest key in use (1 in
    an empty table). *)
Definition next_id (ids : list Z) : Z := (1 + foldr Z.max 0 ids)%Z.

(** Insert the pending objects of one class, in the order they were
    added.  [ids] are the keys in use.  A pending object without a key
    receives the next one; one that brings its key must bring an
    unused integer; the non-nullable columns must be set.  These are the
    checks a flush can fail in a pass over records of the declared
    types.  What the driver and the database refuse besides (a value
    that is no string in a string column, an integer outside the range
    of the column, the unique [credit_card_id] of a user) is not
    checked here: the statements that say a flush succeeds ask it of
    their input ([well_formed], below). *)
Fixpoint flush_rows {T} `{Entity T} (ids : list Z) (rows : list (instance_state * T))
  : result (list (instance_state * T)) :=
  match rows with
  | [] => Return []
  | (Persistent, x) :: rest =>
      match flush_rows ids rest with
      | Return rest' => Return ((Persistent, x) :: rest')
      | Raise e => Raise e
      end
  | (Pending, x) :: rest =>
      if negb (not_null x) then Raise (IntegrityError "NOT NULL constraint failed")
      else
        match get_id x with
        | PNone =>
            let z := next_id ids in
            match flush_rows (z :: ids) rest with
            | Return rest' => Return ((Persistent, set_id (PInt z) x) :: rest')
            | Raise e => Raise e
            end
        | PInt z =>
            if bool_decide (z ∈ ids) then Raise (IntegrityError "UNIQUE constraint failed")
            else
              match flush_rows (z :: ids) rest with
              | Return rest' => Return ((Persistent, x) :: rest')
              | Raise e => Raise e
              end
        | _ => Raise (DataError "primary key is not an integer")
        end
  end.

Definition flush_table {T} `{Entity T} (rows : list (instance_state * T))
  : result (list (instance_state * T)) :=
  flush_rows (table_ids rows) rows.

(** [Session.flush()]: the tables the users refer to first, then the
    users.  The constraints of [models.py] that a pass can break are
    checked: the primary keys and the non-nullable columns.  (The
    foreign keys and the unique [credit_card_id] of a user are keys the
    pass has just read back from the flush.)  A flush that fails leaves
    the model's session as it was: the caller rolls the transaction
    back. *)
Definition Session_flush (s : Session) : result Session :=
  match flush_table (addresses s) with
  | Raise e => Raise e
  | Return a =>
  match flush_table (companies s) with
  | Raise e => Raise e
  | Return c =>
  match flush_table (credit_cards s) with
  | Raise e => Raise e
  | Return cc =>
  match flush_table (users s) with
  | Raise e => Raise e
  | Return u => Return (mkSession a c cc u)
  end end end end.

(** [Session.add(obj)] for each class; the result is the session and
    the reference to the object. *)
Definition add_address (a : Address.t) (s : Session) : Session * handle :=
  (mkSession (addresses s ++ [(Pending, a)]) (companies s) (credit_cards s) (users s),
   length (addresses s)).

Definition add_company (c : Company.t) (s : Session) : Session * handle :=
  (mkSession (addresses s) (companies s ++ [(Pending, c)]) (credit_cards s) (users s),
   length (companies s)).

Definition add_credit_card (c : CreditCard.t) (s : Session) : Session * handle :=
  (mkSession (addresses s) (companies s) (credit_cards s ++ [(Pending, c)]) (users s),
   length (credit_cards s)).

Definition add_user (u : User.t) (s : Session) : Session * handle :=
  (mkSession (addresses s) (companies s) (credit_cards s) (users s ++ [(Pending, u)]),
   length (users s)).

(** The first inserted row of a table with the key [z]. *)
Definition find_by_id {T} `{Entity T} (z : Z) (rows : list (instance_state * T))
  : option (instance_state * T) :=
  find (λ r, bool_decide (row_id r = Some z)) rows.

(** [db.query(User).filter(User.id == user_id).first()].  The parameter
    is annotated [int]; for [None] the filter is [IS NULL], which no
    primary key satisfies, and values of other types find no row in the
    model.  The query reads inserted rows only: the session's autoflush
    has nothing to insert when [sync_users] makes its lookups, all of
    them before the first [add] of a pass, on the session that
    [sync_users_task] opens for that pass.  The model's lookup always
    answers; the driver's raises for an integer it cannot bind.  The
    statements that depend on the outcome of the lookups ask for ids
    the driver binds ([lookups_ok], below). *)
Definition query_user_first (user_id : pyval) (s : Session) : option User.t :=
  match user_id with
  | PInt z => snd <$> find_by_id z (users s)
  | _ => None
  end.

(* ================================================================== *)
(** ** The state of a pass *)
(* ================================================================== *)

(** References to the dictionaries of the directory records. *)
Definition loc := nat.

(** The calls made on the repository and on the two clients, oldest
    first: what the [MagicMock] clients of [tests/test_users.py] record
    and assert on ([assert_called_once_with], [assert_not_called]). *)
Inductive call :=
| get_users_call
| get_user_by_id_call (user_id : pyval)
| get_credit_cards_call (quantity : Z)
| create_address_call (data : pyval)
| create_company_call (data : pyval)
| create_credit_card_call (data : pyval)
| flush_changes_call
| create_user_call (user_data : loc) (address_id company_id credit_card_id : pyval).

Record State := mkState {
  session : Session;
  heap : gmap loc pydict;
  calls : list call }.

(** A computation changes the state and returns or raises; what it did
    before raising stays done. *)
Definition M (A : Type) : Type := State → result A * State.

Definition ret {A} (a : A) : M A := λ st, (Return a, st).

Definition raise {A} (e : exn) : M A := λ st, (Raise e, st).

Definition bind {A B} (m : M A) (k : A → M B) : M B :=
  λ st, match m st with
        | (Return a, st') => k a st'
        | (Raise e, st') => (Raise e, st')
        end.

#[global] Instance M_ret : MRet M := @ret.
#[global] Instance M_bind : MBind M := λ A B k m, bind m k.

Definition record (c : call) : M unit :=
  λ st, (Return tt, mkState (session st) (heap st) (calls st ++ [c])).

Definition with_session {A} (f : Session → Session * A) : M A :=
  λ st, let '(s', a) := f (session st) in
        (Return a, mkState s' (heap st) (calls st)).

Definition read_session {A} (f : Session → A) : M A :=
  λ st, (Return (f (session st)), st).

(** The dictionary behind a reference (a reference the heap does not
    hold reads as the empty dictionary). *)
Definition deref (h : gmap loc pydict) (d : loc) : pydict := default ∅ (h !! d).

Definition read_dict (d : loc) : M pydict := λ st, (Return (deref (heap st) d), st).

(** [v[k]] for a string key: the entry of a dictionary, [KeyError] when
    it has none, [TypeError] on any other value. *)
Definition subscript (v : pyval) (k : string) : M pyval :=
  match v with
  | PDict d => match d !! k with
               | Some x => ret x
               | None => raise (KeyError k)
               end
  | _ => raise (TypeError "indices must be integers, or the object is not subscriptable")
  end.

(** [d[k]] for a directory record [d]. *)
Definition subscript_ref (d : loc) (k : string) : M pyval :=
  dict ← read_dict d; subscript (PDict dict) k.

(** [user_data.pop(k, None)]: the entry leaves the caller's dictionary. *)
Definition pop (d : loc) (k : string) : M unit :=
  λ st, (Return tt, mkState (session st) (alter (dict_pop k) d (heap st)) (calls st)).

(* ================================================================== *)
(** ** The repository ([UsersRepository]) *)
(* ================================================================== *)

Definition create_address (data : pyval) : M handle :=
  record (create_address_call data);;
  street ← subscript data "street";
  suite ← subscript data "suite";
  city ← subscript data "city";
  zipcode ← subscript data "zipcode";
  geo ← subscript data "geo";
  geo_lat ← subscript geo "lat";
  geo' ← subscript data "geo";
  geo_lng ← subscript geo' "lng";
  with_session (add_address (Address.mk PNone street suite city zipcode geo_lat geo_lng)).

Definition create_company (data : pyval) : M handle :=
  record (create_company_call data);;
  name ← subscript data "name";
  catch_phrase ← subscript data "catchPhrase";
  bs ← subscript data "bs";
  with_session (add_company (Company.mk PNone name catch_phrase bs)).

Definition create_credit_card (data : pyval) : M handle :=
  record (create_credit_card_call data);;
  type ← subscript data "type";
  number ← subscript data "number";
  expiration ← subscript data "expiration";
  owner ← subscript data "owner";
  with_session (add_credit_card (CreditCard.mk PNone type number expiration owner)).

(** The keys the call of [User] accepts from the unpacked [user_data]:
    the column attributes that the call does not pass by name itself. *)
Definition user_columns : list string :=
  ["id"; "name"; "username"; "email"; "phone"; "website"].

Definition explicit_keywords : list string :=
  ["address_id"; "company_id"; "credit_card_id"].

(** The call of [User] with the entries of [user_data] unpacked as
    keywords, followed by [address_id=], [company_id=] and
    [credit_card_id=]: a key that is also passed by name is a
    [TypeError] of the call, and so is, in the constructor of the
    mapped class, a key that is no attribute of [User].  Of the
    attributes of [User] the model knows the columns: for a key that
    names another attribute of the class (one it inherits from [Base],
    say) the constructor of the library sets that attribute, where the
    model raises.  No statement below concludes from that branch. *)
Definition User_init (user_data : pydict) (address_id company_id credit_card_id : pyval)
  : M User.t :=
  if existsb (λ k, bool_decide (is_Some (user_data !! k))) explicit_keywords
  then raise (TypeError "got multiple values for keyword argument")
  else if negb (forallb (λ k, bool_decide (k ∈ user_columns)) (map fst (map_to_list user_data)))
  then raise (TypeError "invalid keyword argument for User")
  else ret (User.mk (dict_get user_data "id") (dict_get user_data "name")
              (dict_get user_data "username") (dict_get user_data "email")
              (dict_get user_data "phone") (dict_get user_data "website")
              address_id company_id credit_card_id).

Definition create_user (user_data : loc) (address_id company_id credit_card_id : pyval)
  : M handle :=
  record (create_user_call user_data address_id company_id credit_card_id);;
  pop user_data "address";;
  pop user_data "company";;
  pop user_data "credit_card";;
  dict ← read_dict user_data;
  user ← User_init dict address_id company_id credit_card_id;
  with_session (add_user user).

Definition get_user_by_id (user_id : pyval) : M (option User.t) :=
  record (get_user_by_id_call user_id);;
  read_session (query_user_first user_id).

Definition db_flush : M unit :=
  λ st, match Session_flush (session st) with
        | Return s' => (Return tt, mkState s' (heap st) (calls st))
        | Raise e => (Raise e, st)
        end.

Definition flush_changes : M unit :=
  record flush_changes_call;;
  db_flush.

(** [address.id], [company.id], [credit_card.id]: the attribute of the
    object behind the reference, as the session holds it now. *)
Definition id_of {T} `{Entity T} (rows : list (instance_state * T)) (h : handle) : pyval :=
  match rows !! h with
  | Some (_, x) => get_id x
  | None => PNone
  end.

(* ================================================================== *)
(** ** The API clients ([users/infrastructure/api_client.py]) *)
(* ================================================================== *)

(** What [BaseApiClient._get] does: it raises [HTTPError] (a subclass
    of [RequestException]) or [RequestException], or returns the decoded
    body. *)
Inductive response :=
| HTTPError
| RequestException
| Json (data : pyval).

Module JsonPlaceholderClient.
Definition get_users (resp : response) : pyval :=
  match resp with
  | Json data => data
  | HTTPError | RequestException => PList []
  end.
End JsonPlaceholderClient.

Module FakerApiClient.
(** [resp] is what [_get(endpoint)] does, should the request be made. *)
Definition get_credit_cards (quantity : Z) (resp : response) : pyval :=
  if (quantity <=? 0)%Z then PList []
  else
    match resp with
    | Json data =>
        match data with
        | PDict d =>
            if negb (truthy (dict_get d "data")) then PList []  (* not data.get("data") *)
            else dict_get d "data"                              (* data["data"] *)
        | _ => PList []                            (* not isinstance(data, dict) *)
        end
    | HTTPError | RequestException => PList []
    end.
End FakerApiClient.

(* ================================================================== *)
(** ** The service ([UsersService.sync_users]) *)
(* ================================================================== *)

Definition insufficient_msg : string :=
  "Insufficient credit card data received from external API batch request.".

(** The diff loop: [for d in users_data: if not get_user_by_id(d.get("id")):
    new_users_data.append(d)]. *)
Fixpoint select_new (users_data : list loc) (new_users_data : list loc) : M (list loc) :=
  match users_data with
  | [] => ret new_users_data
  | d :: rest =>
      dict ← read_dict d;
      found ← get_user_by_id (dict_get dict "id");
      match found with
      | None => select_new rest (new_users_data ++ [d])
      | Some _ => select_new rest new_users_data
      end
  end.

(** The create loop.  [card_iterator] is what is left of
    [iter(all_credit_cards)]; [created_users] grows by [append]. *)
Fixpoint create_loop (new_users_data : list loc) (card_iterator : list pyval)
    (created_users : list handle) : M (list handle) :=
  match new_users_data with
  | [] => ret created_users
  | d :: rest =>
      match card_iterator with
      | [] => raise StopIteration
      | faker_card_data :: card_iterator' =>
          address_data ← subscript_ref d "address";
          address ← create_address address_data;
          company_data ← subscript_ref d "company";
          company ← create_company company_data;
          credit_card ← create_credit_card faker_card_data;
          flush_changes;;
          address_id ← read_session (λ s, id_of (addresses s) address);
          company_id ← read_session (λ s, id_of (companies s) company);
          credit_card_id ← read_session (λ s, id_of (credit_cards s) credit_card);
          user ← create_user d address_id company_id credit_card_id;
          create_loop rest card_iterator' (created_users ++ [user])
      end
  end.

(** One pass.  [user_client] is what [get_users()] returns and
    [credit_card_client quantity] what [get_credit_cards(quantity)]
    returns, both of the types the interfaces declare
    ([list[dict[str, Any]]]); the result is the list of references to
    the created users. *)
Definition sync_users (user_client : list loc) (credit_card_client : Z → list pyval)
  : M (list handle) :=
  record get_users_call;;
  let users_data := user_client in
  let created_users := [] in
  if bool_decide (users_data = []) then ret []
  else
    new_users_data ← select_new users_data [];
    let num_new_users := length new_users_data in
    if bool_decide (num_new_users = 0) then ret []
    else
      record (get_credit_cards_call (Z.of_nat num_new_users));;
      let all_credit_cards := credit_card_client (Z.of_nat num_new_users) in
      if bool_decide (length all_credit_cards < num_new_users)
      then raise (Exception insufficient_msg)
      else create_loop new_users_data all_credit_cards created_users.

(* ================================================================== *)
(** ** The periodic task ([users/tasks.py]) *)
(* ================================================================== *)

(** How a run of the task ends: it returns its status string, or it
    raises what [self.retry(exc=exc, countdown=60)] gives. *)
Inductive task_outcome :=
| Completed (message : string)
| Retry (exc : exn) (countdown : Z).

(** [sync_users_task].  The session of [st] is the database as the new
    session of [session_factory()] finds it; as for a pass, the two
    arguments are what the clients the task constructs answer.
    [session.commit()] flushes what the pass has left staged and makes
    it permanent; every exception of the pass or of the commit is an
    [Exception] and reaches the handler, where [session.rollback()]
    gives the database its rows of before the run. *)
Definition sync_users_task (user_client : list loc) (credit_card_client : Z → list pyval)
    (st : State) : task_outcome * State :=
  match sync_users user_client credit_card_client st with
  | (Return created_users, st1) =>
      match Session_flush (session st1) with
      | Return committed =>
          (Completed ("Total new users processed: " +:+ pretty (length created_users)),
           mkState committed (heap st1) (calls st1))
      | Raise exc => (Retry exc 60, mkState (session st) (heap st1) (calls st1))
      end
  | (Raise exc, st1) => (Retry exc 60, mkState (session st) (heap st1) (calls st1))
  end.

(* ================================================================== *)
(** ** The listing ([UsersService.get_all_users_data]) *)
(* ================================================================== *)

Section Listing.
(** What an f-string makes of an attribute value, [format(value)]. *)
Variable str : pyval → string.

(** The [__repr__] of the four classes of [models.py]. *)
Definition User_repr (u : User.t) : string :=
  "User(id=" +:+ str (User.id u) +:+ ", name='" +:+ str (User.name u)
  +:+ "', username='" +:+ str (User.username u) +:+ "', "
  +:+ "email='" +:+ str (User.email u) +:+ "', phone='" +:+ str (User.phone u)
  +:+ "', website='" +:+ str (User.website u) +:+ "', "
  +:+ "address_id=" +:+ str (User.address_id u) +:+ ", company_id="
  +:+ str (User.company_id u) +:+ ", credit_card_id=" +:+ str (User.credit_card_id u)
  +:+ ")".

Definition Address_repr (a : Address.t) : string :=
  "Address(id=" +:+ str (Address.id a) +:+ ", street='" +:+ str (Address.street a)
  +:+ "', suite='" +:+ str (Address.suite a) +:+ "', city='" +:+ str (Address.city a)
  +:+ "', " +:+ "zipcode='" +:+ str (Address.zipcode a) +:+ "', geo_lat='"
  +:+ str (Address.geo_lat a) +:+ "', geo_lng='" +:+ str (Address.geo_lng a) +:+ "')".

Definition Company_repr (c : Company.t) : string :=
  "Company(id=" +:+ str (Company.id c) +:+ ", name='" +:+ str (Company.name c)
  +:+ "', catch_phrase='" +:+ str (Company.catch_phrase c) +:+ "', bs='"
  +:+ str (Company.bs c) +:+ "')".

Definition CreditCard_repr (c : CreditCard.t) : string :=
  "CreditCard(id=" +:+ str (CreditCard.id c) +:+ ", type='" +:+ str (CreditCard.type c)
  +:+ "', number='" +:+ str (CreditCard.number c) +:+ "', expiration='"
  +:+ str (CreditCard.expiration c) +:+ "', owner='" +:+ str (CreditCard.owner c)
  +:+ "')".

(** [db.query(User).all()]: the inserted users.  (The tables of the
    model keep the order of insertion; the query asks for no order.  On
    a session with staged users the query would flush them first; the
    listing is made on the session [display_users] opens, which has
    none.) *)
Definition get_all_users (s : Session) : list User.t :=
  omap (λ r, match r.1 with Persistent => Some r.2 | Pending => None end) (users s).

(** [user.address], [user.company], [user.credit_card]: the row the
    foreign key refers to, [None] when the key is [None] or refers to
    no row. *)
Definition related {T} `{Entity T} (key : pyval) (rows : list (instance_state * T))
  : option T :=
  match key with
  | PInt z => snd <$> find_by_id z rows
  | _ => None
  end.

(** [obj.__repr__()], where [obj] may be [None]. *)
Definition repr_of {T} (repr : T → string) (obj : option T) : string :=
  match obj with
  | Some x => repr x
  | None => "None"
  end.

Definition user_data_of (s : Session) (user : User.t) : pydict :=
  <["id" := User.id user]>
  (<["name" := User.name user]>
  (<["email" := User.email user]>
  (<["phone" := User.phone user]>
  (<["address" := PStr (repr_of Address_repr (related (User.address_id user) (addresses s)))]>
  (<["company" := PStr (repr_of Company_repr (related (User.company_id user) (companies s)))]>
  (<["credit_card" :=
       PStr match related (User.credit_card_id user) (credit_cards s) with
            | Some card => CreditCard_repr card
            | None => "N/A"
            end]> ∅)))))).

Definition get_all_users_data (s : Session) : list pydict :=
  user_data_of s <$> get_all_users s.
End Listing.

(* ================================================================== *)
(** ** Vocabulary of the statements *)
(* ================================================================== *)

(** A fetched record is new when the lookup of its id finds no row. *)
Definition is_new (s : Session) (h : gmap loc pydict) (d : loc) : bool :=
  match query_user_first (dict_get (deref h d) "id") s with
  | None => true
  | Some _ => false
  end.

(** The new users of a directory result, in fetch order. *)
Definition new_users (s : Session) (h : gmap loc pydict) (users_data : list loc)
  : list loc :=
  List.filter (is_new s h) users_data.

(** An id the lookup can be made for: no id at all, or an integer that
    the driver binds as a parameter of the query (64 bits, signed). *)
Definition bindable (v : pyval) : bool :=
  match v with
  | PNone => true
  | PInt z => ((-9223372036854775808 <=? z) && (z <=? 9223372036854775807))%Z
  | _ => false
  end.

(** Every fetched record has such an id. *)
Definition lookups_ok (h : gmap loc pydict) (users_data : list loc) : Prop :=
  Forall (λ d, bindable (dict_get (deref h d) "id") = true) users_data.

(** The lookups the diff step makes, one per fetched record. *)
Definition lookup_calls (h : gmap loc pydict) (users_data : list loc) : list call :=
  map (λ d, get_user_by_id_call (dict_get (deref h d) "id")) users_data.

(** The calls a computation started in [st] has added when it ends in [st']. *)
Definition calls_since (st st' : State) : list call :=
  drop (length (calls st)) (calls st').

(** The repository calls that stage or write entities. *)
Definition is_write (c : call) : bool :=
  match c with
  | create_address_call _ | create_company_call _ | create_credit_card_call _
  | flush_changes_call | create_user_call _ _ _ _ => true
  | get_users_call | get_user_by_id_call _ | get_credit_cards_call _ => false
  end.

Definition is_get_credit_cards (c : call) : bool :=
  match c with get_credit_cards_call _ => true | _ => false end.

(** [user_data] once [create_user] has popped the three nested entries. *)
Definition strip (d : pydict) : pydict :=
  dict_pop "credit_card" (dict_pop "company" (dict_pop "address" d)).

(** A relation between the state before and after that every step of a
    computation keeps. *)
Definition keeps {A} (R : State → State → Prop) (m : M A) : Prop :=
  ∀ st, R st (m st).2.

(** [st'] has the calls of [st] followed by calls that all satisfy [P]. *)
Definition appends (P : call → bool) (st st' : State) : Prop :=
  ∃ cs, calls st' = calls st ++ cs ∧ forallb P cs = true.

(** The state once the directory has been fetched and diffed. *)
Definition after_diff (users_data : list loc) (st : State) : State :=
  mkState (session st) (heap st)
    (calls st ++ get_users_call :: lookup_calls (heap st) users_data).

(** The state once the batch of cards has been asked for. *)
Definition after_batch (users_data : list loc) (st : State) : State :=
  mkState (session st) (heap st)
    (calls st ++ get_users_call :: lookup_calls (heap st) users_data
       ++ [get_credit_cards_call
             (Z.of_nat (length (new_users (session st) (heap st) users_data)))]).

(** The entries [create_address] reads from its argument, and from the
    nested [geo]. *)
Definition address_keys : list string := ["street"; "suite"; "city"; "zipcode"; "geo"].

Definition geo_keys : list string := ["lat"; "lng"].

Definition lacks (d : pydict) (k : string) : bool :=
  match d !! k with None => true | Some _ => false end.

(** A record that misses one of the required address fields: an entry
    of the record itself, or [lat] or [lng] of its [geo] dictionary. *)
Definition missing_address_field (data : pydict) : bool :=
  existsb (lacks data) address_keys
  || match data !! "geo" with
     | Some (PDict geo) => existsb (lacks geo) geo_keys
     | _ => false
     end.

(** The records a list of calls has passed to [create_user]. *)
Definition popped (cs : list call) : list loc :=
  omap (λ c, match c with
             | create_user_call d _ _ _ => Some d
             | _ => None
             end) cs.

(** The heap once the nested entries of the records [ds] are popped. *)
Definition strip_at (h : gmap loc pydict) (ds : list loc) : gmap loc pydict :=
  foldl (λ h d, alter strip d h) h ds.

(** [st'] differs from [st] by calls, and by the pops of its calls of
    [create_user]. *)
Definition pops (st st' : State) : Prop :=
  ∃ cs, calls st' = calls st ++ cs ∧ heap st' = strip_at (heap st) (popped cs).

Definition nested_keys : list string := ["address"; "company"; "credit_card"].

Definition is_Exception (e : exn) : bool :=
  match e with Exception _ => true | _ => false end.

(** A computation that raises no plain [Exception]. *)
Definition quiet {A} (m : M A) : Prop :=
  ∀ st e, (m st).1 = Raise e → is_Exception e = false.

(** [u] carries the entries of the directory record [dict]: each
    column is the entry of that name ([None] when the record has none),
    and the key is the record's id, unless the record has none. *)
Definition user_from (dict : pydict) (u : User.t) : Prop :=
  (User.id u = dict_get dict "id" ∨ dict_get dict "id" = PNone) ∧
  User.name u = dict_get dict "name" ∧
  User.username u = dict_get dict "username" ∧
  User.email u = dict_get dict "email" ∧
  User.phone u = dict_get dict "phone" ∧
  User.website u = dict_get dict "website".

(** [c] carries the four entries of the auxiliary record [data]. *)
Definition card_from (data : pyval) (c : CreditCard.t) : Prop :=
  ∃ d, data = PDict d ∧
       d !! "type" = Some (CreditCard.type c) ∧
       d !! "number" = Some (CreditCard.number c) ∧
       d !! "expiration" = Some (CreditCard.expiration c) ∧
       d !! "owner" = Some (CreditCard.owner c).

(** In session [s], the user behind the reference [user] is built from
    the directory record [dict], and its [credit_card_id] is the key of
    an inserted card; the row with that key is built from the auxiliary
    record [card_data]. *)
Definition paired (s : Session) (dict : pydict) (card_data : pyval) (user : handle)
  : Prop :=
  ∃ ust u z card,
    users s !! user = Some (ust, u) ∧
    user_from dict u ∧
    User.credit_card_id u = PInt z ∧
    find_by_id z (credit_cards s) = Some (Persistent, card) ∧
    card_from card_data card.

(** A relation between sessions, as a relation between states. *)
Definition on_session (Rs : Session → Session → Prop) (st st' : State) : Prop :=
  Rs (session st) (session st').

(** Every pairing of [s] still holds in [s']. *)
Definition pairs_kept (s s' : Session) : Prop :=
  ∀ dict card_data user, paired s dict card_data user → paired s' dict card_data user.

(** Every user key that [s] finds, [s'] finds. *)
Definition found_kept (s s' : Session) : Prop :=
  ∀ z, is_Some (find_by_id z (users s)) → is_Some (find_by_id z (users s')).

(** *** Well-formed input *)

(** A string with the NUL character, which PostgreSQL stores in no
    text column. *)
Fixpoint has_nul (s : string) : bool :=
  match s with
  | EmptyString => false
  | String c s' => Ascii.eqb c Ascii.zero || has_nul s'
  end.

(** The dictionary has the entry, and it is a value a [Mapped[str]]
    column stores: a string, without NUL. *)
Definition filled (d : pydict) (k : string) : bool :=
  match d !! k with
  | Some (PStr s) => negb (has_nul s)
  | _ => false
  end.

(** An integer an [Integer] column stores (32 bits, signed: the range
    of PostgreSQL, the narrowest). *)
Definition in_column (z : Z) : bool := ((-2147483648 <=? z) && (z <=? 2147483647))%Z.

Definition company_keys : list string := ["name"; "catchPhrase"; "bs"].

Definition card_keys : list string := ["type"; "number"; "expiration"; "owner"].

(** A nested address with all the fields [create_address] reads. *)
Definition address_ok (v : pyval) : bool :=
  match v with
  | PDict d =>
      forallb (filled d) ["street"; "suite"; "city"; "zipcode"]
      && match d !! "geo" with
         | Some (PDict g) => forallb (filled g) geo_keys
         | _ => false
         end
  | _ => false
  end.

Definition company_ok (v : pyval) : bool :=
  match v with PDict d => forallb (filled d) company_keys | _ => false end.

Definition card_ok (v : pyval) : bool :=
  match v with PDict d => forallb (filled d) card_keys | _ => false end.

(** A directory record as the directory API sends it: the user columns
    (strings, and an integer id that the key column stores), the nested
    address and company, and no other entry but, possibly, a nested
    credit card. *)
Definition record_ok (dict : pydict) : bool :=
  match dict !! "address" with Some a => address_ok a | None => false end
  && match dict !! "company" with Some c => company_ok c | None => false end
  && forallb (λ k, bool_decide (k ∈ user_columns ++ nested_keys))
       (map fst (map_to_list dict))
  && forallb (filled dict) ["name"; "username"; "email"; "phone"; "website"]
  && match dict !! "id" with Some (PInt z) => in_column z | _ => false end.

(** The integer id of a record, if it has one. *)
Definition record_id (h : gmap loc pydict) (d : loc) : option Z :=
  match dict_get (deref h d) "id" with PInt z => Some z | _ => None end.

Definition all_persistent {T} (rows : list (instance_state * T)) : Prop :=
  Forall (λ r, r.1 = Persistent) rows.

(** A session with nothing staged: what [sync_users_task] opens. *)
Definition clean (s : Session) : Prop :=
  all_persistent (addresses s) ∧ all_persistent (companies s) ∧
  all_persistent (credit_cards s) ∧ all_persistent (users s).

(** The stored users refer to stored cards, as the foreign key has it:
    a card key that is not in use is the [credit_card_id] of no user. *)
Definition cards_linked (s : Session) : Prop :=
  Forall (λ r, match User.credit_card_id r.2 with
               | PNone => True
               | PInt z => z ∈ table_ids (credit_cards s)
               | _ => False
               end) (users s).

(** The keys in use leave room for [n] more rows in each of the tables
    whose keys the database assigns. *)
Definition room (s : Session) (n : nat) : Prop :=
  ∀ z, z ∈ table_ids (addresses s) ++ table_ids (companies s)
             ++ table_ids (credit_cards s) →
       (z + Z.of_nat n ≤ 2147483647)%Z.

(** The input of a pass that the create loop can work through: a clean
    session, well-formed new records with pairwise distinct ids, and
    well-formed card records for them; and a database in which the
    unique [credit_card_id] cannot clash with the key of a new card,
    and the keys of the new rows stay in the range of their column. *)
Definition well_formed (s : Session) (h : gmap loc pydict) (new : list loc)
    (cards : list pyval) : Prop :=
  clean s ∧
  Forall (λ d, record_ok (deref h d) = true) new ∧
  NoDup (record_id h <$> new) ∧
  Forall (λ c, card_ok c = true) (take (length new) cards) ∧
  cards_linked s ∧
  room s (length new).

(** What the create loop needs of the session before each turn: the
    three referenced tables hold inserted rows only; the users are
    inserted rows, followed at most by the user of the previous turn,
    still pending, whose key is free; and the keys in [ids] (those of the
    records still to come) are all free. *)
Definition ready (s : Session) (ids : list Z) : Prop :=
  all_persistent (addresses s) ∧ all_persistent (companies s) ∧
  all_persistent (credit_cards s) ∧
  ∃ inserted pending,
    users s = inserted ++ pending ∧
    all_persistent inserted ∧
    (∀ z, z ∈ ids → z ∉ table_ids inserted) ∧
    (pending = [] ∨
     ∃ u z, pending = [(Pending, u)] ∧ not_null u = true ∧ User.id u = PInt z ∧
            (z ∉ table_ids inserted) ∧ (z ∉ ids)).

(* ================================================================== *)
(** ** Example data (the records of [tests/test_users.py]) *)
(* ================================================================== *)

Definition mock_address : pyval :=
  PDict (list_to_map
    [("street", PStr "Test Street"); ("suite", PStr "Apt. 100");
     ("city", PStr "Testville"); ("zipcode", PStr "12345");
     ("geo", PDict (list_to_map [("lat", PStr "1.0"); ("lng", PStr "2.0")]))]).

Definition mock_company : pyval :=
  PDict (list_to_map
    [("name", PStr "Test Company"); ("catchPhrase", PStr "Test Phrase");
     ("bs", PStr "Test BS")]).

Definition mock_user_data (id : Z) (username : string) : pydict :=
  list_to_map
    [("id", PInt id); ("name", PStr "Test User"); ("username", PStr username);
     ("email", PStr "test@example.com"); ("phone", PStr "123-456-7890");
     ("website", PStr "test.org");
     ("address", mock_address); ("company", mock_company)].

Definition mock_card (number : string) : pyval :=
  PDict (list_to_map
    [("type", PStr "Visa"); ("number", PStr number);
     ("expiration", PStr "12/25"); ("owner", PStr "Test Owner")]).

Definition mock_credit_card : pyval := mock_card "1111222233334444".

(** Batches of cards, whatever the quantity asked for: as many as the
    three users need, and one more. *)
Definition three_cards : Z → list pyval :=
  λ _, [mock_card "1111"; mock_card "2222"; mock_card "3333"].

Definition four_cards : Z → list pyval :=
  λ _, [mock_card "1111"; mock_card "2222"; mock_card "3333"; mock_card "4444"].

Definition empty_session : Session := mkSession [] [] [] [].

(** Three directory records, at references 0, 1 and 2, and an empty
    database ([test_sync_users_insufficient_cards]). *)
Definition three_users_heap : gmap loc pydict :=
  list_to_map [(0, mock_user_data 101 "tester"); (1, mock_user_data 102 "t2");
               (2, mock_user_data 103 "t3")].

Definition fresh_state : State := mkState empty_session three_users_heap [].

(** A database that already holds user 101
    ([test_sync_users_skip_existing]). *)
Definition existing_user : User.t :=
  User.mk (PInt 101) (PStr "Existing User") (PStr "exist") (PStr "e@e.com")
    (PStr "p") (PStr "w") (PInt 1) (PInt 1) (PInt 1).

Definition session_with_101 : Session :=
  mkSession
    [(Persistent, Address.mk (PInt 1) (PStr "a") (PStr "s") (PStr "c") (PStr "z")
                    (PStr "1") (PStr "1"))]
    [(Persistent, Company.mk (PInt 1) (PStr "n") (PStr "c") (PStr "b"))]
    [(Persistent, CreditCard.mk (PInt 1) (PStr "t") (PStr "n") (PStr "e") (PStr "o"))]
    [(Persistent, existing_user)].

Definition state_with_101 : State := mkState session_with_101 three_users_heap [].


Definition number_body : pyval := PDict {[ "data" := PInt 5 ]}.

(** Two directory records with the same id, and an empty database. *)
Definition twins_heap : gmap loc pydict :=
  list_to_map [(0, mock_user_data 101 "tester"); (1, mock_user_data 101 "twin")].

Definition twins_state : State := mkState empty_session twins_heap [].

(* ================================================================== *)
(** ** Vocabulary of the further properties *)
(* ================================================================== *)

(** *** The order of the repository calls *)

(** What a repository call does to the session, without its arguments. *)
Inductive step := StageAddress | StageCompany | StageCard | FlushAll | StageUser.

Definition step_of (c : call) : option step :=
  match c with
  | create_address_call _ => Some StageAddress
  | create_company_call _ => Some StageCompany
  | create_credit_card_call _ => Some StageCard
  | flush_changes_call => Some FlushAll
  | create_user_call _ _ _ _ => Some StageUser
  | get_users_call | get_user_by_id_call _ | get_credit_cards_call _ => None
  end.

(** The steps of one turn of the create loop, and of [n] turns. *)
Definition turn : list step :=
  [StageAddress; StageCompany; StageCard; FlushAll; StageUser].

Definition turns (n : nat) : list step := mjoin (replicate n turn).

(** The record a call hands to [create_user]; the record a call hands
    to [create_credit_card]. *)
Definition user_target (c : call) : option loc :=
  match c with create_user_call d _ _ _ => Some d | _ => None end.

Definition card_data_of (c : call) : option pyval :=
  match c with create_credit_card_call data => Some data | _ => None end.

Definition silent {X} (f : call → option X) (c : call) : bool :=
  match f c with None => true | Some _ => false end.

(** The calls [m] adds, seen through [f], are a prefix of [xs], and all
    of [xs] when [m] returns. *)
Definition marks {X A} (f : call → option X) (xs : list X) (m : M A) : Prop :=
  ∀ st, ∃ cs,
    calls (m st).2 = calls st ++ cs ∧
    omap f cs `prefix_of` xs ∧
    (∀ a, (m st).1 = Return a → omap f cs = xs).

(** *** The rows a user refers to *)

(** [a] carries the entries of the nested address [data], those of its
    [geo] as [geo_lat] and [geo_lng]. *)
Definition address_from (data : pyval) (a : Address.t) : Prop :=
  ∃ d g, data = PDict d ∧
         d !! "street" = Some (Address.street a) ∧
         d !! "suite" = Some (Address.suite a) ∧
         d !! "city" = Some (Address.city a) ∧
         d !! "zipcode" = Some (Address.zipcode a) ∧
         d !! "geo" = Some (PDict g) ∧
         g !! "lat" = Some (Address.geo_lat a) ∧
         g !! "lng" = Some (Address.geo_lng a).

Definition company_from (data : pyval) (c : Company.t) : Prop :=
  ∃ d, data = PDict d ∧
       d !! "name" = Some (Company.name c) ∧
       d !! "catchPhrase" = Some (Company.catch_phrase c) ∧
       d !! "bs" = Some (Company.bs c).

(** In session [s], the user behind the reference [user] refers to an
    inserted address and an inserted company, built from the nested
    address and company of the directory record [dict]. *)
Definition housed (s : Session) (dict : pydict) (user : handle) : Prop :=
  ∃ ust u za zc a co address_data company_data,
    users s !! user = Some (ust, u) ∧
    User.address_id u = PInt za ∧
    find_by_id za (addresses s) = Some (Persistent, a) ∧
    dict !! "address" = Some address_data ∧ address_from address_data a ∧
    User.company_id u = PInt zc ∧
    find_by_id zc (companies s) = Some (Persistent, co) ∧
    dict !! "company" = Some company_data ∧ company_from company_data co.

Definition housed_kept (s s' : Session) : Prop :=
  ∀ dict user, housed s dict user → housed s' dict user.

(** *** Rows are only ever added *)

(** Every inserted row of [rows] is, unchanged and in place, a row of
    [rows']. *)
Definition rows_kept {T} (rows rows' : list (instance_state * T)) : Prop :=
  ∀ i x, rows !! i = Some (Persistent, x) → rows' !! i = Some (Persistent, x).

Definition append_only (s s' : Session) : Prop :=
  rows_kept (addresses s) (addresses s') ∧
  rows_kept (companies s) (companies s') ∧
  rows_kept (credit_cards s) (credit_cards s') ∧
  rows_kept (users s) (users s').

(** No two inserted rows of a table share their key. *)
Definition keys_unique (s : Session) : Prop :=
  NoDup (table_ids (addresses s)) ∧ NoDup (table_ids (companies s)) ∧
  NoDup (table_ids (credit_cards s)) ∧ NoDup (table_ids (users s)).

Definition keys_unique_kept (s s' : Session) : Prop := keys_unique s → keys_unique s'.

(** *** What the listing shows of a synchronised user *)

(** [entry] shows the user of the directory record [dict] with the card
    of the auxiliary record [card_data]: the columns of the record, and
    the [__repr__] of an address, a company and a card that carry the
    entries of the nested address, the nested company and the card
    record. *)
Definition shows (str : pyval → string) (dict : pydict) (card_data : pyval)
    (entry : pydict) : Prop :=
  ∃ a co card address_data company_data,
    (entry !! "id" = Some (dict_get dict "id") ∨ dict_get dict "id" = PNone) ∧
    entry !! "name" = Some (dict_get dict "name") ∧
    entry !! "email" = Some (dict_get dict "email") ∧
    entry !! "phone" = Some (dict_get dict "phone") ∧
    dict !! "address" = Some address_data ∧ address_from address_data a ∧
    entry !! "address" = Some (PStr (Address_repr str a)) ∧
    dict !! "company" = Some company_data ∧ company_from company_data co ∧
    entry !! "company" = Some (PStr (Company_repr str co)) ∧
    card_from card_data card ∧
    entry !! "credit_card" = Some (PStr (CreditCard_repr str card)).

(* ================================================================== *)
(** ** Laws of the monad *)
(* ================================================================== *)

Lemma bind_eq {A B} (m : M A) (k : A → M B) (st : State) :
  (m ≫= k) st = match m st with
                | (Return a, st') => k a st'
                | (Raise e, st') => (Raise e, st')
                end.
Proof. reflexivity. Qed.

Lemma bind_Return {A B} (m : M A) (k : A → M B) st b st'' :
  (m ≫= k) st = (Return b, st'') →
  ∃ a st', m st = (Return a, st') ∧ k a st' = (Return b, st'').
Proof.
  rewrite bind_eq. destruct (m st) as [[a|e] st'] eqn:E; [eauto | discriminate].
Qed.

Lemma bind_ext {A B} (m : M A) (k1 k2 : A → M B) st :
  (∀ a st', k1 a st' = k2 a st') → (m ≫= k1) st = (m ≫= k2) st.
Proof.
  intros Hk. rewrite !bind_eq. destruct (m st) as [[a|e] st']; [apply Hk | reflexivity].
Qed.

Lemma keeps_run {A} (R : State → State → Prop) (m : M A) st r st' :
  keeps R m → m st = (r, st') → R st st'.
Proof. intros K E. specialize (K st). by rewrite E in K. Qed.

Section Keeps.
Context (R : State → State → Prop) `{!PreOrder R}.

Lemma keeps_ret {A} (a : A) : keeps R (ret a).
Proof. intros st. simpl. reflexivity. Qed.

Lemma keeps_raise {A} (e : exn) : keeps R (@raise A e).
Proof. intros st. simpl. reflexivity. Qed.

Lemma keeps_bind {A B} (m : M A) (k : A → M B) :
  keeps R m → (∀ a, keeps R (k a)) → keeps R (m ≫= k).
Proof.
  intros Hm Hk st. rewrite bind_eq. specialize (Hm st).
  destruct (m st) as [[a|e] st']; simpl in *; [| assumption].
  etransitivity; [eassumption | apply Hk].
Qed.

Lemma keeps_read_session {A} (f : Session → A) : keeps R (read_session f).
Proof. intros st. simpl. reflexivity. Qed.

Lemma keeps_read_dict d : keeps R (read_dict d).
Proof. intros st. simpl. reflexivity. Qed.

Lemma keeps_subscript v k : keeps R (subscript v k).
Proof.
  destruct v; try apply keeps_raise. simpl.
  destruct (d !! k); [apply keeps_ret | apply keeps_raise].
Qed.

Lemma keeps_subscript_ref d k : keeps R (subscript_ref d k).
Proof.
  apply keeps_bind; [apply keeps_read_dict | intros; apply keeps_subscript].
Qed.
End Keeps.

(* ================================================================== *)
(** ** The diff step *)
(* ================================================================== *)

Lemma select_new_spec users_data acc st :
  select_new users_data acc st =
    (Return (acc ++ new_users (session st) (heap st) users_data),
     mkState (session st) (heap st) (calls st ++ lookup_calls (heap st) users_data)).
Proof.
  revert acc st. induction users_data as [|d rest IH]; intros acc st.
  - simpl. unfold ret. rewrite !app_nil_r. by destruct st.
  - cbn [select_new]. rewrite bind_eq. cbn [read_dict]. rewrite bind_eq.
    unfold get_user_by_id. rewrite bind_eq. cbn [record read_session session heap calls].
    cbn [new_users List.filter lookup_calls map]. unfold is_new at 1.
    destruct (query_user_first (dict_get (deref (heap st) d) "id") (session st)) eqn:E;
      rewrite IH; cbn [session heap calls]; rewrite <- !app_assoc; reflexivity.
Qed.

Lemma new_users_nil_iff s h users_data :
  new_users s h users_data = [] ↔ Forall (λ d, is_new s h d = false) users_data.
Proof.
  induction users_data as [|d rest IH]; simpl.
  - split; [constructor | reflexivity].
  - destruct (is_new s h d) eqn:E.
    + split; [discriminate | intros H; inversion H; congruence].
    + rewrite IH. split; [by constructor | intros H; by inversion H].
Qed.

Lemma calls_since_app st st' cs :
  calls st' = calls st ++ cs → calls_since st st' = cs.
Proof. unfold calls_since. intros ->. by rewrite drop_app_length. Qed.

(* ================================================================== *)
(** ** The calls a computation adds *)
(* ================================================================== *)

#[global] Instance appends_preorder P : PreOrder (appends P).
Proof.
  split.
  - intros st. exists []. by rewrite app_nil_r.
  - intros st1 st2 st3 (cs1 & E1 & F1) (cs2 & E2 & F2). exists (cs1 ++ cs2).
    rewrite E2, E1, <- app_assoc, forallb_app, F1, F2. done.
Qed.

Lemma appends_same_calls {A} P (m : M A) :
  (∀ st, calls (m st).2 = calls st) → keeps (appends P) m.
Proof. intros H st. exists []. by rewrite H, app_nil_r. Qed.

Lemma appends_record P c : P c = true → keeps (appends P) (record c).
Proof. intros H st. exists [c]. simpl. by rewrite H. Qed.

Lemma appends_with_session {A} P (f : Session → Session * A) :
  keeps (appends P) (with_session f).
Proof.
  apply appends_same_calls. intros st. unfold with_session.
  by destruct (f (session st)).
Qed.

Lemma appends_pop P d k : keeps (appends P) (pop d k).
Proof. by apply appends_same_calls. Qed.

Lemma appends_db_flush P : keeps (appends P) db_flush.
Proof.
  apply appends_same_calls. intros st. unfold db_flush.
  by destruct (Session_flush (session st)).
Qed.

Ltac keeps_step :=
  first
    [ apply keeps_ret | apply keeps_raise | apply keeps_read_session
    | apply keeps_read_dict | apply keeps_subscript | apply keeps_subscript_ref
    | apply appends_with_session | apply appends_pop | apply appends_db_flush
    | apply appends_record; reflexivity
    | apply keeps_bind; [| | intros ?] ];
  try match goal with |- PreOrder _ => typeclasses eauto end.

Lemma appends_create_address data : keeps (appends is_write) (create_address data).
Proof. unfold create_address. repeat keeps_step. Qed.

Lemma appends_create_company data : keeps (appends is_write) (create_company data).
Proof. unfold create_company. repeat keeps_step. Qed.

Lemma appends_create_credit_card data :
  keeps (appends is_write) (create_credit_card data).
Proof. unfold create_credit_card. repeat keeps_step. Qed.

Lemma appends_flush_changes : keeps (appends is_write) flush_changes.
Proof. unfold flush_changes. repeat keeps_step. Qed.

Lemma appends_create_user d a c cc : keeps (appends is_write) (create_user d a c cc).
Proof.
  unfold create_user. repeat keeps_step.
  unfold User_init. repeat case_match; keeps_step.
Qed.

Lemma appends_create_loop new_users_data cards created :
  keeps (appends is_write) (create_loop new_users_data cards created).
Proof.
  revert cards created. induction new_users_data as [|d rest IH]; intros cards created.
  - simpl. keeps_step.
  - destruct cards as [|c cards']; cbn [create_loop]; [keeps_step |].
    repeat first
      [ apply IH | apply appends_create_address | apply appends_create_company
      | apply appends_create_credit_card | apply appends_flush_changes
      | apply appends_create_user | keeps_step ].
Qed.

(* ================================================================== *)
(** ** The pass, step by step *)
(* ================================================================== *)

Lemma sync_users_eq users_data client st :
  sync_users users_data client st =
    let nu := new_users (session st) (heap st) users_data in
    let cards := client (Z.of_nat (length nu)) in
    if bool_decide (nu = []) then (Return [], after_diff users_data st)
    else if bool_decide (length cards < length nu)
    then (Raise (Exception insufficient_msg), after_batch users_data st)
    else create_loop nu cards [] (after_batch users_data st).
Proof.
  unfold sync_users. rewrite bind_eq. cbn [record].
  destruct users_data as [|d rest].
  - reflexivity.
  - rewrite bool_decide_eq_false_2 by discriminate.
    rewrite bind_eq, select_new_spec. cbn [session heap calls app].
    set (nu := new_users _ _ _). cbv zeta.
    destruct nu as [|n nu'] eqn:E.
    + cbn. unfold ret, after_diff. by rewrite <- app_assoc.
    + rewrite (bool_decide_eq_false_2 (length (n :: nu') = 0)) by discriminate.
      rewrite (bool_decide_eq_false_2 (n :: nu' = [])) by discriminate.
      rewrite bind_eq. cbn [record session heap calls].
      unfold after_batch. fold nu. rewrite E. rewrite <- !app_assoc. cbn [app].
      by case_bool_decide.
Qed.

Lemma filter_lookup_calls (P : call → bool) h users_data :
  (∀ v, P (get_user_by_id_call v) = false) →
  List.filter P (lookup_calls h users_data) = [].
Proof.
  intros HP. induction users_data as [|d rest IH]; simpl; [done |]. by rewrite HP.
Qed.

Lemma filter_none_of (P Q : call → bool) cs :
  (∀ c, Q c = true → P c = false) → forallb Q cs = true → List.filter P cs = [].
Proof.
  intros HPQ. induction cs as [|c cs IH]; simpl; [done |].
  intros [Hc Hcs]%andb_prop. rewrite (HPQ c Hc). auto.
Qed.

Lemma write_not_get_credit_cards c : is_write c = true → is_get_credit_cards c = false.
Proof. by destruct c. Qed.

Lemma calls_since_after_diff users_data st :
  calls_since st (after_diff users_data st)
  = get_users_call :: lookup_calls (heap st) users_data.
Proof. by apply calls_since_app. Qed.

Lemma calls_since_after_batch users_data st :
  calls_since st (after_batch users_data st)
  = get_users_call :: lookup_calls (heap st) users_data
      ++ [get_credit_cards_call
            (Z.of_nat (length (new_users (session st) (heap st) users_data)))].
Proof. by apply calls_since_app. Qed.

(* ================================================================== *)
(** ** Properties of a pass *)
(* ================================================================== *)

(** C1 — fail-fast on a shortfall.  For a directory answer whose ids
    the lookups can be made for: when the diff step finds at least one
    new user and the auxiliary client returns strictly fewer records
    than there are new users, [sync_users] raises the exception
    "Insufficient credit card data ..." and has made no call of
    [create_address], [create_company], [create_credit_card],
    [create_user] or [flush_changes]: the session (and the records of
    the directory) are exactly as they were before the pass. *)
Theorem sync_users_insufficient_cards users_data credit_card_client st :
  lookups_ok (heap st) users_data →
  new_users (session st) (heap st) users_data ≠ [] →
  length (credit_card_client
            (Z.of_nat (length (new_users (session st) (heap st) users_data))))
    < length (new_users (session st) (heap st) users_data) →
  ∃ st',
    sync_users users_data credit_card_client st
      = (Raise (Exception insufficient_msg), st') ∧
    session st' = session st ∧
    heap st' = heap st ∧
    List.filter is_write (calls_since st st') = [].
Proof.
  intros _ Hnew Hshort. rewrite sync_users_eq. cbv zeta.
  rewrite bool_decide_eq_false_2 by assumption.
  rewrite bool_decide_eq_true_2 by assumption.
  eexists. split; [reflexivity |]. repeat split.
  rewrite calls_since_after_batch. cbn [List.filter is_write].
  rewrite List.filter_app, filter_lookup_calls by done. reflexivity.
Qed.

Lemma sync_users_insufficient_cards_witness :
  ∃ st',
    sync_users [0; 1; 2] (λ _, [mock_credit_card; mock_credit_card]) fresh_state
      = (Raise (Exception insufficient_msg), st') ∧
    session st' = session fresh_state ∧
    heap st' = heap fresh_state ∧
    List.filter is_write (calls_since fresh_state st') = [].
Proof.
  apply (sync_users_insufficient_cards [0; 1; 2]
           (λ _, [mock_credit_card; mock_credit_card]) fresh_state).
  - repeat constructor; vm_compute; reflexivity.
  - vm_compute. discriminate.
  - vm_compute. lia.
Defined.

(** C2 — one batch call.  For a directory answer whose ids the lookups
    can be made for: when the diff step finds K ≥ 1 new users, the
    calls of the pass contain exactly one call of [get_credit_cards],
    and its argument is K — whatever K is and however the pass ends. *)
Theorem sync_users_batch_call users_data credit_card_client st :
  lookups_ok (heap st) users_data →
  1 ≤ length (new_users (session st) (heap st) users_data) →
  List.filter is_get_credit_cards
    (calls_since st (sync_users users_data credit_card_client st).2)
  = [get_credit_cards_call
       (Z.of_nat (length (new_users (session st) (heap st) users_data)))].
Proof.
  intros _ HK. rewrite sync_users_eq. cbv zeta.
  rewrite bool_decide_eq_false_2 by (intros E; rewrite E in HK; simpl in HK; lia).
  assert (Hbatch : List.filter is_get_credit_cards
            (calls_since st (after_batch users_data st))
          = [get_credit_cards_call
               (Z.of_nat (length (new_users (session st) (heap st) users_data)))]).
  { rewrite calls_since_after_batch. cbn [List.filter is_get_credit_cards].
    rewrite List.filter_app, filter_lookup_calls by done. reflexivity. }
  case_bool_decide; [exact Hbatch |].
  destruct (appends_create_loop
              (new_users (session st) (heap st) users_data)
              (credit_card_client
                 (Z.of_nat (length (new_users (session st) (heap st) users_data))))
              [] (after_batch users_data st)) as (cs & Hcs & Hw).
  unfold calls_since in *. rewrite Hcs.
  assert (Hlen : length (calls st) ≤ length (calls (after_batch users_data st))).
  { cbn [after_batch calls]. rewrite length_app. lia. }
  rewrite drop_app_le by exact Hlen.
  rewrite List.filter_app, Hbatch.
  rewrite (filter_none_of _ _ cs write_not_get_credit_cards Hw). reflexivity.
Qed.

Lemma sync_users_batch_call_witness :
  List.filter is_get_credit_cards
    (calls_since fresh_state
       (sync_users [0; 1; 2]
          (λ _, [mock_credit_card; mock_credit_card; mock_credit_card]) fresh_state).2)
  = [get_credit_cards_call 3].
Proof.
  apply (sync_users_batch_call [0; 1; 2]
           (λ _, [mock_credit_card; mock_credit_card; mock_credit_card]) fresh_state).
  - repeat constructor; vm_compute; reflexivity.
  - vm_compute. lia.
Defined.

Lemma sync_users_all_found users_data credit_card_client st :
  Forall (λ d, is_Some (query_user_first (dict_get (deref (heap st) d) "id")
                          (session st))) users_data →
  sync_users users_data credit_card_client st = (Return [], after_diff users_data st).
Proof.
  intros Hall. rewrite sync_users_eq. cbv zeta.
  assert (Hnil : new_users (session st) (heap st) users_data = []).
  { apply new_users_nil_iff. eapply Forall_impl; [exact Hall |].
    intros d [u Hu]. unfold is_new. by rewrite Hu. }
  by rewrite bool_decide_eq_true_2.
Qed.

(** C4 — nothing new, nothing done.  When the lookup of every fetched
    record's id finds a row (as after a pass over the same directory
    data has been committed), [sync_users] returns the empty list, has
    staged and flushed nothing (the session and the records are
    unchanged), and has not called [get_credit_cards]. *)
Theorem sync_users_nothing_new users_data credit_card_client st :
  Forall (λ d, is_Some (query_user_first (dict_get (deref (heap st) d) "id")
                          (session st))) users_data →
  ∃ st',
    sync_users users_data credit_card_client st = (Return [], st') ∧
    session st' = session st ∧
    heap st' = heap st ∧
    List.filter is_write (calls_since st st') = [] ∧
    List.filter is_get_credit_cards (calls_since st st') = [].
Proof.
  intros Hall. rewrite (sync_users_all_found _ _ _ Hall).
  eexists. split; [reflexivity |]. repeat split.
  - rewrite calls_since_after_diff. cbn [List.filter is_write].
    by rewrite filter_lookup_calls.
  - rewrite calls_since_after_diff. cbn [List.filter is_get_credit_cards].
    by rewrite filter_lookup_calls.
Qed.

Lemma sync_users_nothing_new_witness :
  ∃ st',
    sync_users [0] (λ _, [mock_credit_card]) state_with_101 = (Return [], st') ∧
    session st' = session state_with_101 ∧
    heap st' = heap state_with_101 ∧
    List.filter is_write (calls_since state_with_101 st') = [] ∧
    List.filter is_get_credit_cards (calls_since state_with_101 st') = [].
Proof.
  apply (sync_users_nothing_new [0] (λ _, [mock_credit_card]) state_with_101).
  repeat constructor. vm_compute. eauto.
Defined.

(** C5, as the code has it — a directory failure is absorbed, an
    auxiliary failure is not.  A request that fails makes either client
    return the empty list.  With the empty list from the directory
    client the pass returns the empty list, without touching the session.
    With the empty list from the auxiliary client, which is asked only
    when there is a new user, the pass raises "Insufficient credit card
    data ...", again without touching the session (the directory answer
    being one whose ids the lookups can be made for). *)
Theorem upstream_failure_outcome resp quantity users_data credit_card_client st :
  resp = HTTPError ∨ resp = RequestException →
  JsonPlaceholderClient.get_users resp = PList [] ∧
  (∃ st', sync_users [] credit_card_client st = (Return [], st') ∧
          session st' = session st) ∧
  FakerApiClient.get_credit_cards quantity resp = PList [] ∧
  (lookups_ok (heap st) users_data →
   ∃ st', sync_users users_data (λ _, []) st
          = (if bool_decide (new_users (session st) (heap st) users_data = [])
             then Return []
             else Raise (Exception insufficient_msg), st') ∧
          session st' = session st).
Proof.
  intros Hfail. split_and!.
  - by destruct Hfail as [-> | ->].
  - rewrite sync_users_eq. cbn. eauto.
  - unfold FakerApiClient.get_credit_cards.
    destruct (quantity <=? 0)%Z; [done |]. by destruct Hfail as [-> | ->].
  - intros _. rewrite sync_users_eq. cbv zeta. case_bool_decide as Hnu; [eauto |].
    rewrite bool_decide_eq_true_2; [eauto |].
    destruct (new_users _ _ _); [done | simpl; lia].
Qed.

Lemma upstream_failure_outcome_witness :
  JsonPlaceholderClient.get_users RequestException = PList [] ∧
  (∃ st', sync_users [] (λ _, [mock_credit_card]) fresh_state = (Return [], st') ∧
          session st' = session fresh_state) ∧
  FakerApiClient.get_credit_cards 1 RequestException = PList [] ∧
  (∃ st', sync_users [0] (λ _, []) fresh_state
          = (Raise (Exception insufficient_msg), st') ∧
          session st' = session fresh_state).
Proof.
  destruct (upstream_failure_outcome RequestException 1 [0] (λ _, [mock_credit_card])
              fresh_state) as (Husers & Hempty & Hcards & Hfatal);
    [right; reflexivity |].
  split_and!; [exact Husers | exact Hempty | exact Hcards |].
  apply Hfatal. repeat constructor; vm_compute; reflexivity.
Defined.

(** C5, as stated, fails: the auxiliary client's request fails, the
    client returns the empty list, and the pass over one new user
    raises instead of returning. *)
Lemma auxiliary_failure_is_fatal :
  FakerApiClient.get_credit_cards 1 HTTPError = PList [] ∧
  (sync_users [0] (λ _, []) fresh_state).1 = Raise (Exception insufficient_msg) ∧
  ¬ ∃ created, (sync_users [0] (λ _, []) fresh_state).1 = Return created.
Proof.
  split; [reflexivity |]. split; [by vm_compute |].
  intros [created H]. vm_compute in H. discriminate.
Qed.

(* ================================================================== *)
(** ** Properties of the card client *)
(* ================================================================== *)




(** C8 — the failing input.  The body is an object whose [data] is the
    number 5: not an envelope with a non-empty array, yet the client
    returns the number itself, not an empty sequence. *)
Theorem get_credit_cards_returns_payload :
  FakerApiClient.get_credit_cards 1 (Json number_body) = PInt 5 ∧
  FakerApiClient.get_credit_cards 1 (Json number_body) ≠ PList [].
Proof. split; [reflexivity | discriminate]. Qed.

(* ================================================================== *)
(** ** Properties of the repository *)
(* ================================================================== *)

Lemma subscript_Some d k v st :
  d !! k = Some v → subscript (PDict d) k st = (Return v, st).
Proof. intros E. simpl. by rewrite E. Qed.

Lemma subscript_None d k st :
  d !! k = None → subscript (PDict d) k st = (Raise (KeyError k), st).
Proof. intros E. simpl. by rewrite E. Qed.

Ltac subscript_step E :=
  rewrite bind_eq;
  first [ rewrite (subscript_Some _ _ _ _ E) | rewrite (subscript_None _ _ _ E) ].

Ltac all_present :=
  let Hin := fresh "Hin" in
  intros ? Hin;
  repeat (apply elem_of_cons in Hin as [-> | Hin];
          [match goal with
           | E : ?d !! ?k = Some _ |- is_Some (?d !! ?k) => rewrite E; by eexists
           end |]);
  by apply elem_of_nil in Hin.

Ltac key_error before after :=
  eexists; split;
  [ reflexivity
  | left; exists before, after; split_and!; [reflexivity | all_present | assumption] ].

Ltac geo_key_error g before after :=
  eexists; split;
  [ reflexivity
  | right; exists g, before, after;
    split_and!;
    [ all_present | first [assumption | reflexivity] | reflexivity | all_present
    | assumption ] ].

(** C7, as the code has it — a record that misses a required address
    field makes [create_address] fail with the [KeyError] of the lookup
    of that field, before anything is staged: the session is unchanged
    and only the call itself is on record.  The field is the first, in
    the order the code reads them (street, suite, city, zipcode, geo,
    then lat and lng of [geo]), that the record lacks: the fields read
    before it are there, and it is not. *)
Theorem create_address_missing_field (data : pydict) st :
  missing_address_field data = true →
  ∃ k,
    create_address (PDict data) st
      = (Raise (KeyError k),
         mkState (session st) (heap st)
           (calls st ++ [create_address_call (PDict data)])) ∧
    ((∃ before after,
        address_keys = before ++ k :: after ∧
        (∀ k', k' ∈ before → is_Some (data !! k')) ∧
        data !! k = None)
     ∨ (∃ geo before after,
          (∀ k', k' ∈ address_keys → is_Some (data !! k')) ∧
          data !! "geo" = Some (PDict geo) ∧
          geo_keys = before ++ k :: after ∧
          (∀ k', k' ∈ before → is_Some (geo !! k')) ∧
          geo !! k = None)).
Proof.
  unfold missing_address_field, address_keys, geo_keys, lacks. cbn [existsb].
  intros Hmiss. unfold create_address. rewrite bind_eq. cbn [record].
  destruct (data !! "street") eqn:E1; subscript_step E1;
    [| key_error (@nil string) ["suite"; "city"; "zipcode"; "geo"]].
  destruct (data !! "suite") eqn:E2; subscript_step E2;
    [| key_error ["street"] ["city"; "zipcode"; "geo"]].
  destruct (data !! "city") eqn:E3; subscript_step E3;
    [| key_error ["street"; "suite"] ["zipcode"; "geo"]].
  destruct (data !! "zipcode") eqn:E4; subscript_step E4;
    [| key_error ["street"; "suite"; "city"] ["geo"]].
  destruct (data !! "geo") as [geo|] eqn:E5; subscript_step E5;
    [| key_error ["street"; "suite"; "city"; "zipcode"] (@nil string)].
  cbn [orb] in Hmiss. destruct geo as [| | | | |g]; try discriminate.
  destruct (g !! "lat") eqn:E6; subscript_step E6;
    [| geo_key_error g (@nil string) ["lng"]].
  subscript_step E5.
  destruct (g !! "lng") eqn:E7; [discriminate |].
  subscript_step E7. geo_key_error g ["lat"] (@nil string).
Qed.

Lemma create_address_missing_field_witness :
  ∃ k,
    create_address (PDict ∅) fresh_state
      = (Raise (KeyError k),
         mkState (session fresh_state) (heap fresh_state)
           (calls fresh_state ++ [create_address_call (PDict ∅)])) ∧
    ((∃ before after,
        address_keys = before ++ k :: after ∧
        (∀ k', k' ∈ before → is_Some ((∅ : pydict) !! k')) ∧
        (∅ : pydict) !! k = None)
     ∨ (∃ geo before after,
          (∀ k', k' ∈ address_keys → is_Some ((∅ : pydict) !! k')) ∧
          (∅ : pydict) !! "geo" = Some (PDict geo) ∧
          geo_keys = before ++ k :: after ∧
          (∀ k', k' ∈ before → is_Some (geo !! k')) ∧
          geo !! k = None)).
Proof.
  apply (create_address_missing_field ∅ fresh_state). reflexivity.
Defined.

(** C7, as stated, fails: on the empty record [create_address] raises
    [KeyError], not [ValidationError]. *)
Lemma create_address_raises_KeyError :
  (create_address (PDict ∅) fresh_state).1 = Raise (KeyError "street") ∧
  ¬ ∃ msg, (create_address (PDict ∅) fresh_state).1 = Raise (ValidationError msg).
Proof.
  split; [reflexivity |]. intros [msg H]. vm_compute in H. discriminate.
Qed.

(* ------------------------------------------------------------------ *)
(** *** [create_user] and the caller's dictionary *)

Lemma strip_lookup (d : pydict) k :
  strip d !! k = if bool_decide (k ∈ nested_keys) then None else d !! k.
Proof.
  unfold strip, dict_pop, nested_keys. case_bool_decide as Hk.
  - apply list_elem_of_In in Hk. simpl in Hk.
    destruct Hk as [<- | [<- | [<- | []]]]; by simplify_map_eq.
  - rewrite !lookup_delete_ne; [done | | |]; intros <-; apply Hk; set_solver.
Qed.

Lemma strip_idemp (d : pydict) : strip (strip d) = strip d.
Proof.
  apply map_eq. intros k. rewrite !strip_lookup. by case_bool_decide.
Qed.

Lemma strip_empty : strip ∅ = ∅.
Proof. apply map_eq. intros k. rewrite strip_lookup. by case_bool_decide. Qed.

Lemma alter_strip (d : loc) (h : gmap loc pydict) :
  alter (dict_pop "credit_card") d
    (alter (dict_pop "company") d (alter (dict_pop "address") d h))
  = alter strip d h.
Proof.
  apply map_eq. intros l. destruct (decide (l = d)) as [-> | Hne].
  - rewrite !lookup_alter_eq. by destruct (h !! d).
  - by rewrite !lookup_alter_ne.
Qed.

Lemma deref_alter_strip (d : loc) (h : gmap loc pydict) :
  deref (alter strip d h) d = strip (deref h d).
Proof.
  unfold deref. rewrite lookup_alter_eq.
  destruct (h !! d); simpl; [done | by rewrite strip_empty].
Qed.

(** What [create_user] does before it constructs the [User]. *)
Lemma create_user_eq d a c cc st :
  create_user d a c cc st =
    (User_init (strip (deref (heap st) d)) a c cc
       ≫= λ user, with_session (add_user user))
      (mkState (session st) (alter strip d (heap st))
         (calls st ++ [create_user_call d a c cc])).
Proof.
  unfold create_user. rewrite bind_eq. cbn [record].
  rewrite bind_eq. cbn [pop session heap calls].
  rewrite bind_eq. cbn [pop session heap calls].
  rewrite bind_eq. cbn [pop session heap calls].
  rewrite alter_strip.
  rewrite bind_eq. cbn [read_dict session heap calls].
  by rewrite deref_alter_strip.
Qed.

Lemma User_init_state dict a c cc st : (User_init dict a c cc st).2 = st.
Proof. unfold User_init. by repeat case_match. Qed.

Lemma create_user_heap d a c cc st :
  heap (create_user d a c cc st).2 = alter strip d (heap st).
Proof.
  rewrite create_user_eq, bind_eq.
  destruct (User_init _ _ _ _ _) as [[u|e] st1] eqn:E;
    pose proof (User_init_state (strip (deref (heap st) d)) a c cc
                  (mkState (session st) (alter strip d (heap st))
                     (calls st ++ [create_user_call d a c cc]))) as Hst;
    rewrite E in Hst; simpl in Hst; subst st1; [| done].
  unfold with_session. by destruct (add_user _ _).
Qed.

Lemma create_user_calls d a c cc st :
  calls (create_user d a c cc st).2 = calls st ++ [create_user_call d a c cc].
Proof.
  rewrite create_user_eq, bind_eq.
  destruct (User_init _ _ _ _ _) as [[u|e] st1] eqn:E;
    pose proof (User_init_state (strip (deref (heap st) d)) a c cc
                  (mkState (session st) (alter strip d (heap st))
                     (calls st ++ [create_user_call d a c cc]))) as Hst;
    rewrite E in Hst; simpl in Hst; subst st1; [| done].
  unfold with_session. by destruct (add_user _ _).
Qed.

Lemma strip_at_app h ds1 ds2 :
  strip_at h (ds1 ++ ds2) = strip_at (strip_at h ds1) ds2.
Proof. unfold strip_at. by rewrite foldl_app. Qed.

Lemma strip_at_lookup ds : ∀ h (l : loc),
  strip_at h ds !! l = if bool_decide (l ∈ ds) then strip <$> h !! l else h !! l.
Proof.
  induction ds as [|d ds IH]; intros h l; [done |].
  cbn [strip_at foldl]. fold (strip_at (alter strip d h) ds). rewrite IH.
  destruct (decide (l = d)) as [-> | Hne].
  - rewrite lookup_alter_eq.
    rewrite (bool_decide_eq_true_2 (d ∈ d :: ds)) by set_solver.
    case_bool_decide; [| done]. destruct (h !! d); simpl; [| done].
    by rewrite strip_idemp.
  - rewrite lookup_alter_ne by done.
    by rewrite (bool_decide_ext (l ∈ d :: ds) (l ∈ ds)) by set_solver.
Qed.

#[global] Instance pops_preorder : PreOrder pops.
Proof.
  split.
  - intros st. exists []. by rewrite app_nil_r.
  - intros st1 st2 st3 (cs1 & E1 & H1) (cs2 & E2 & H2). exists (cs1 ++ cs2).
    rewrite E2, E1, <- app_assoc. split; [done |].
    unfold popped in *. by rewrite omap_app, strip_at_app, <- H1, <- H2.
Qed.

Lemma pops_same {A} (m : M A) :
  (∀ st, calls (m st).2 = calls st ∧ heap (m st).2 = heap st) → keeps pops m.
Proof. intros H st. exists []. destruct (H st) as [-> ->]. by rewrite app_nil_r. Qed.

Lemma pops_record c : popped [c] = [] → keeps pops (record c).
Proof. intros H st. exists [c]. by rewrite H. Qed.

Lemma pops_with_session {A} (f : Session → Session * A) : keeps pops (with_session f).
Proof.
  apply pops_same. intros st. unfold with_session. by destruct (f (session st)).
Qed.

Lemma pops_db_flush : keeps pops db_flush.
Proof.
  apply pops_same. intros st. unfold db_flush.
  by destruct (Session_flush (session st)).
Qed.

Lemma pops_create_user d a c cc : keeps pops (create_user d a c cc).
Proof.
  intros st. exists [create_user_call d a c cc].
  by rewrite create_user_calls, create_user_heap.
Qed.

Ltac pops_step :=
  first
    [ apply keeps_ret | apply keeps_raise | apply keeps_read_session
    | apply keeps_read_dict | apply keeps_subscript | apply keeps_subscript_ref
    | apply pops_with_session | apply pops_db_flush | apply pops_create_user
    | apply pops_record; reflexivity
    | apply keeps_bind; [| | intros ?] ];
  try match goal with |- PreOrder _ => typeclasses eauto end.

Lemma pops_create_loop new_users_data cards created :
  keeps pops (create_loop new_users_data cards created).
Proof.
  revert cards created. induction new_users_data as [|d rest IH]; intros cards created.
  - simpl. pops_step.
  - destruct cards as [|c cards']; cbn [create_loop]; [pops_step |].
    unfold create_address, create_company, create_credit_card, flush_changes.
    repeat first [ apply IH | pops_step ].
Qed.

Lemma popped_app cs1 cs2 : popped (cs1 ++ cs2) = popped cs1 ++ popped cs2.
Proof. unfold popped. by rewrite omap_app. Qed.

Lemma popped_lookup_calls h users_data : popped (lookup_calls h users_data) = [].
Proof. induction users_data as [|d rest IH]; [done | exact IH]. Qed.

Lemma pops_sync_users users_data client : keeps pops (sync_users users_data client).
Proof.
  intros st. rewrite sync_users_eq. cbv zeta.
  assert (Hdiff : ∀ cs, popped cs = [] →
            pops st (mkState (session st) (heap st) (calls st ++ cs))).
  { intros cs Hcs. exists cs. by rewrite Hcs. }
  assert (Hlook : ∀ tl, popped tl = [] →
            popped (get_users_call :: lookup_calls (heap st) users_data ++ tl) = []).
  { intros tl Htl. change (get_users_call :: ?l) with ([get_users_call] ++ l).
    by rewrite !popped_app, Htl, popped_lookup_calls. }
  case_bool_decide.
  - apply Hdiff. rewrite <- (app_nil_r (lookup_calls _ _)). by apply Hlook.
  - case_bool_decide; [by apply Hdiff, Hlook |].
    etransitivity; [| apply pops_create_loop]. by apply Hdiff, Hlook.
Qed.

(** C9 — [create_user] changes the caller's record in place.  For a
    record [d] behind the reference [user_data]: the call leaves
    [strip d] behind that reference, whether it returns or raises; the
    [User] is constructed from the stripped record; [strip d] has lost
    exactly the entries "address", "company" and "credit_card"; no
    other record is touched.  And after a pass, whichever way it ended,
    every record the pass handed to [create_user] is the stripped one,
    every other record is as it was. *)
Theorem create_user_pops_in_place
    user_data d address_id company_id credit_card_id users_data credit_card_client st :
  heap st !! user_data = Some d →
  create_user user_data address_id company_id credit_card_id st
    = (User_init (strip d) address_id company_id credit_card_id
         ≫= λ user, with_session (add_user user))
        (mkState (session st) (<[user_data := strip d]> (heap st))
           (calls st
              ++ [create_user_call user_data address_id company_id credit_card_id])) ∧
  heap (create_user user_data address_id company_id credit_card_id st).2 !! user_data
    = Some (strip d) ∧
  (∀ l, l ≠ user_data →
        heap (create_user user_data address_id company_id credit_card_id st).2 !! l
        = heap st !! l) ∧
  (∀ k, strip d !! k = if bool_decide (k ∈ nested_keys) then None else d !! k) ∧
  (user_data ∈ popped (calls_since st (sync_users users_data credit_card_client st).2) →
   heap (sync_users users_data credit_card_client st).2 !! user_data = Some (strip d)) ∧
  (∀ l, l ∉ popped (calls_since st (sync_users users_data credit_card_client st).2) →
        heap (sync_users users_data credit_card_client st).2 !! l = heap st !! l).
Proof.
  intros Hd.
  assert (Halter : alter strip user_data (heap st) = <[user_data := strip d]> (heap st)).
  { apply map_eq. intros l. destruct (decide (l = user_data)) as [-> | Hne].
    - by rewrite lookup_alter_eq, lookup_insert_eq, Hd.
    - by rewrite lookup_alter_ne, lookup_insert_ne. }
  split; [| split; [| split; [| split; [| split]]]].
  - rewrite create_user_eq, Halter. unfold deref. by rewrite Hd.
  - by rewrite create_user_heap, Halter, lookup_insert_eq.
  - intros l Hl. by rewrite create_user_heap, lookup_alter_ne.
  - apply strip_lookup.
  - destruct (pops_sync_users users_data credit_card_client st) as (cs & Hcs & Hheap).
    rewrite (calls_since_app _ _ _ Hcs), Hheap, strip_at_lookup. intros Hin.
    by rewrite bool_decide_eq_true_2, Hd.
  - destruct (pops_sync_users users_data credit_card_client st) as (cs & Hcs & Hheap).
    rewrite (calls_since_app _ _ _ Hcs), Hheap. intros l Hl.
    by rewrite strip_at_lookup, bool_decide_eq_false_2.
Qed.

Lemma create_user_pops_in_place_witness :
  heap (create_user 0 (PInt 1) (PInt 1) (PInt 1) fresh_state).2 !! 0
    = Some (strip (mock_user_data 101 "tester")) ∧
  heap (sync_users [0] (λ _, [mock_credit_card]) fresh_state).2 !! 0
    = Some (strip (mock_user_data 101 "tester")).
Proof.
  assert (Hd : heap fresh_state !! 0 = Some (mock_user_data 101 "tester"))
    by (vm_compute; reflexivity).
  pose proof (create_user_pops_in_place 0 (mock_user_data 101 "tester")
                (PInt 1) (PInt 1) (PInt 1) [0] (λ _, [mock_credit_card]) fresh_state Hd)
    as (_ & Hcall & _ & _ & Hpass & _).
  split; [exact Hcall |]. apply Hpass. vm_compute. apply list_elem_of_here.
Defined.

(* ------------------------------------------------------------------ *)
(** *** Surplus records *)

Lemma create_loop_take new_users_data : ∀ cards created st,
  length new_users_data ≤ length cards →
  create_loop new_users_data cards created st
  = create_loop new_users_data (take (length new_users_data) cards) created st.
Proof.
  induction new_users_data as [|d rest IH]; intros cards created st Hlen; [done |].
  destruct cards as [|c cards']; simpl in Hlen; [lia |].
  cbn [create_loop length take].
  repeat (apply bind_ext; intros ? ?).
  apply IH. lia.
Qed.

Lemma quiet_ret {A} (a : A) : quiet (ret a).
Proof. intros st e. discriminate. Qed.

Lemma quiet_raise {A} e : is_Exception e = false → quiet (@raise A e).
Proof. intros He st e' [= <-]. exact He. Qed.

Lemma quiet_bind {A B} (m : M A) (k : A → M B) :
  quiet m → (∀ a, quiet (k a)) → quiet (m ≫= k).
Proof.
  intros Hm Hk st e. rewrite bind_eq. specialize (Hm st).
  destruct (m st) as [[a|e'] st']; simpl in *; [apply Hk | intros [= <-]; by apply Hm].
Qed.

Lemma quiet_returns {A} (m : M A) : (∀ st, ∃ a, (m st).1 = Return a) → quiet m.
Proof. intros H st e He. destruct (H st) as [a Ha]. congruence. Qed.

Lemma quiet_subscript v k : quiet (subscript v k).
Proof.
  destruct v; try by apply quiet_raise. simpl.
  destruct (d !! k); [apply quiet_ret | by apply quiet_raise].
Qed.

Lemma quiet_with_session {A} (f : Session → Session * A) : quiet (with_session f).
Proof.
  apply quiet_returns. intros st. unfold with_session.
  destruct (f (session st)). eauto.
Qed.

Lemma flush_rows_quiet {T} `{Entity T} (rows : list (instance_state * T)) : ∀ ids e,
  flush_rows ids rows = Raise e → is_Exception e = false.
Proof.
  induction rows as [|[[] x] rest IH]; intros ids e; cbn [flush_rows].
  - discriminate.
  - destruct (negb (not_null x)); [by intros [= <-] |].
    destruct (get_id x); try by intros [= <-].
    + destruct (flush_rows _ rest) eqn:E; [discriminate | intros [= <-]; eauto].
    + case_bool_decide; [by intros [= <-] |].
      destruct (flush_rows _ rest) eqn:E; [discriminate | intros [= <-]; eauto].
  - destruct (flush_rows ids rest) eqn:E; [discriminate | intros [= <-]; eauto].
Qed.

Lemma quiet_db_flush : quiet db_flush.
Proof.
  intros st e. unfold db_flush, Session_flush, flush_table.
  repeat match goal with
         | |- context [flush_rows ?i ?r] =>
             let E := fresh "E" in
             destruct (flush_rows i r) eqn:E;
             [| simpl; intros [= <-]; exact (flush_rows_quiet _ _ _ E)]
         end.
  simpl. discriminate.
Qed.

Ltac quiet_step :=
  first
    [ apply quiet_ret | apply quiet_raise; reflexivity | apply quiet_subscript
    | apply quiet_with_session | apply quiet_db_flush
    | apply quiet_returns; intros ?; simpl; eauto; fail
    | apply quiet_bind; [| intros ?] ].

Lemma quiet_create_user d a c cc : quiet (create_user d a c cc).
Proof.
  unfold create_user. repeat quiet_step.
  unfold User_init. repeat case_match; quiet_step.
Qed.

Lemma quiet_create_loop new_users_data : ∀ cards created,
  quiet (create_loop new_users_data cards created).
Proof.
  induction new_users_data as [|d rest IH]; intros cards created.
  - simpl. quiet_step.
  - destruct cards as [|c cards']; cbn [create_loop]; [quiet_step |].
    unfold subscript_ref, create_address, create_company, create_credit_card,
      flush_changes.
    repeat first [ apply IH | apply quiet_create_user | quiet_step ].
Qed.

(* ================================================================== *)
(** ** The session: what a flush does *)
(* ================================================================== *)

Section Flush.
Context {T : Type} `{Entity T}.
Implicit Types (rows : list (instance_state * T)) (ids : list Z) (x : T).

Lemma next_id_fresh ids : next_id ids ∉ ids.
Proof.
  assert (Hmax : ∀ z, z ∈ ids → (z ≤ foldr Z.max 0 ids)%Z).
  { induction ids as [|y ids IH]; intros z Hz; [by apply not_elem_of_nil in Hz |].
    apply elem_of_cons in Hz as [-> | Hz]; simpl; [lia |].
    specialize (IH z Hz). lia. }
  intros Hin. apply Hmax in Hin. unfold next_id in Hin. lia.
Qed.

Lemma table_ids_app rows1 rows2 :
  table_ids (rows1 ++ rows2) = table_ids rows1 ++ table_ids rows2.
Proof. unfold table_ids. apply omap_app. Qed.

Lemma table_ids_cons r rows :
  table_ids (r :: rows)
  = match row_id r with Some z => z :: table_ids rows | None => table_ids rows end.
Proof. reflexivity. Qed.

Lemma find_by_id_None z rows : z ∉ table_ids rows → find_by_id z rows = None.
Proof.
  induction rows as [|r rows IH]; [done |]. rewrite table_ids_cons.
  unfold find_by_id in *. cbn [find]. intros Hz. case_bool_decide as Hr.
  - rewrite Hr in Hz. set_solver.
  - apply IH. destruct (row_id r); set_solver.
Qed.

Lemma find_by_id_in z rows r : find_by_id z rows = Some r → z ∈ table_ids rows.
Proof.
  induction rows as [|r0 rows IH]; [done |]. rewrite table_ids_cons.
  unfold find_by_id in *. cbn [find]. case_bool_decide as Hr.
  - intros _. rewrite Hr. set_solver.
  - intros Hf. specialize (IH Hf). destruct (row_id r0); set_solver.
Qed.

Lemma find_by_id_is_Some z rows : z ∈ table_ids rows → is_Some (find_by_id z rows).
Proof.
  induction rows as [|r rows IH]; [by intros ?%not_elem_of_nil |].
  rewrite table_ids_cons. unfold find_by_id in *. cbn [find].
  case_bool_decide as Hr; [eauto |]. intros Hz. apply IH.
  destruct (row_id r) as [w|]; [| done].
  apply elem_of_cons in Hz as [-> | Hz]; [done | exact Hz].
Qed.

Lemma lookup_table_ids rows i x z :
  rows !! i = Some (Persistent, x) → get_id x = PInt z → z ∈ table_ids rows.
Proof.
  revert i. induction rows as [|r rows IH]; intros i; [done |].
  rewrite table_ids_cons. destruct i as [|i]; simpl.
  - intros [= ->] Hx. cbn [row_id]. rewrite Hx. set_solver.
  - intros Hi Hx. specialize (IH i Hi Hx). destruct (row_id r); set_solver.
Qed.

Lemma find_by_id_app_l z rows more r :
  find_by_id z rows = Some r → find_by_id z (rows ++ more) = Some r.
Proof.
  unfold find_by_id. induction rows as [|r0 rows IH]; [done |]. simpl.
  by case_bool_decide.
Qed.

Lemma find_by_id_app_r z rows more :
  find_by_id z rows = None → find_by_id z (rows ++ more) = find_by_id z more.
Proof.
  unfold find_by_id. induction rows as [|r0 rows IH]; [done |]. simpl.
  by case_bool_decide.
Qed.

Lemma flush_rows_length rows : ∀ ids rows',
  flush_rows ids rows = Return rows' → length rows' = length rows.
Proof.
  induction rows as [|[[] x] rest IH]; intros ids rows'; cbn [flush_rows].
  - by intros [= <-].
  - destruct (negb (not_null x)); [done |].
    destruct (get_id x); try done.
    + destruct (flush_rows _ rest) eqn:E; [| done].
      intros [= <-]. simpl. f_equal. eauto.
    + case_bool_decide; [done |]. destruct (flush_rows _ rest) eqn:E; [| done].
      intros [= <-]. simpl. f_equal. eauto.
  - destruct (flush_rows ids rest) eqn:E; [| done].
    intros [= <-]. simpl. f_equal. eauto.
Qed.

(** A flush leaves every object in place: an inserted row as it is,
    a pending object inserted, with a key if it had none. *)
Lemma flush_rows_lookup rows : ∀ ids rows' i st x,
  flush_rows ids rows = Return rows' →
  rows !! i = Some (st, x) →
  ∃ x', rows' !! i = Some (Persistent, x') ∧
        (x' = x ∨ (st = Pending ∧ get_id x = PNone ∧ ∃ z, x' = set_id (PInt z) x)).
Proof.
  induction rows as [|[[] y] rest IH]; intros ids rows' i st x; cbn [flush_rows].
  - done.
  - destruct (negb (not_null y)); [done |].
    destruct (get_id y) eqn:Hid; try done.
    + destruct (flush_rows _ rest) eqn:E; [| done]. intros [= <-].
      destruct i as [|i]; simpl; [| by eapply IH].
      intros [= <- <-]. eauto 10.
    + case_bool_decide; [done |]. destruct (flush_rows _ rest) eqn:E; [| done].
      intros [= <-]. destruct i as [|i]; simpl; [| by eapply IH].
      intros [= <- <-]. eauto.
  - destruct (flush_rows ids rest) eqn:E; [| done]. intros [= <-].
    destruct i as [|i]; simpl; [| by eapply IH].
    intros [= <- <-]. eauto.
Qed.

(** The first inserted row with key [z] stays the first row with key
    [z]: no object inserted by the flush receives a key in use. *)
Lemma flush_rows_find rows : ∀ ids rows' z x,
  flush_rows ids rows = Return rows' →
  z ∈ ids →
  find_by_id z rows = Some (Persistent, x) →
  find_by_id z rows' = Some (Persistent, x).
Proof.
  unfold find_by_id.
  induction rows as [|[[] y] rest IH]; intros ids rows' z x; cbn [flush_rows].
  - done.
  - destruct (negb (not_null y)); [done |].
    destruct (get_id y) eqn:Hid; try done.
    + destruct (flush_rows _ rest) eqn:E; [| done]. intros [= <-] Hz.
      cbn [find row_id]. rewrite get_set_id.
      rewrite bool_decide_eq_false_2 by done.
      rewrite bool_decide_eq_false_2;
        [| intros [= Heq]; rewrite <- Heq in Hz; by apply (next_id_fresh ids)].
      eapply IH; [exact E | set_solver].
    + case_bool_decide as Hin; [done |].
      destruct (flush_rows _ rest) eqn:E; [| done]. intros [= <-] Hz.
      cbn [find row_id]. rewrite Hid.
      rewrite bool_decide_eq_false_2 by done.
      rewrite bool_decide_eq_false_2 by (intros [= ->]; done).
      eapply IH; [exact E | set_solver].
  - destruct (flush_rows ids rest) eqn:E; [| done]. intros [= <-] Hz.
    cbn [find]. case_bool_decide; [done |]. by eapply IH.
Qed.

(** The object added last, without a key, receives a key that no
    other row of the table has. *)
Lemma flush_rows_snoc old : ∀ ids x rows',
  flush_rows ids (old ++ [(Pending, x)]) = Return rows' →
  get_id x = PNone →
  table_ids old ⊆ ids →
  ∃ old' z,
    rows' = old' ++ [(Persistent, set_id (PInt z) x)] ∧
    length old' = length old ∧
    (z ∉ table_ids old') ∧ (z ∉ ids).
Proof.
  induction old as [|[[] y] rest IH]; intros ids x rows'; cbn [app flush_rows].
  - destruct (negb (not_null x)); [done |]. intros Hf Hx _. rewrite Hx in Hf.
    injection Hf as <-. exists [], (next_id ids).
    repeat split; [set_solver | apply next_id_fresh].
  - destruct (negb (not_null y)); [done |]. rewrite table_ids_cons. cbn [row_id].
    destruct (get_id y) eqn:Hid; try done.
    + destruct (flush_rows _ (rest ++ _)) eqn:E; [| done]. intros [= <-] Hx Hsub.
      destruct (IH _ _ _ E Hx) as (old' & z & -> & Hlen & Hz & Hids);
        [set_solver |].
      exists ((Persistent, set_id (PInt (next_id ids)) y) :: old'), z.
      repeat split; [simpl; by rewrite Hlen | | set_solver].
      rewrite table_ids_cons. cbn [row_id]. rewrite get_set_id. set_solver.
    + case_bool_decide as Hin; [done |].
      destruct (flush_rows _ (rest ++ _)) eqn:E; [| done]. intros [= <-] Hx Hsub.
      destruct (IH _ _ _ E Hx) as (old' & z' & -> & Hlen & Hz & Hids);
        [set_solver |].
      exists ((Persistent, y) :: old'), z'.
      repeat split; [simpl; by rewrite Hlen | | set_solver].
      rewrite table_ids_cons. cbn [row_id]. rewrite Hid. set_solver.
  - destruct (flush_rows ids (rest ++ _)) eqn:E; [| done]. intros [= <-] Hx.
    rewrite table_ids_cons. intros Hsub.
    assert (Hsub' : table_ids rest ⊆ ids).
    { destruct (row_id (Persistent, y)); set_solver. }
    destruct (IH _ _ _ E Hx Hsub') as (old' & z & -> & Hlen & Hz & Hids).
    exists ((Persistent, y) :: old'), z.
    repeat split; [simpl; by rewrite Hlen | | done].
    rewrite table_ids_cons.
    destruct (row_id (Persistent, y)) as [w|] eqn:Hw; [| done]. set_solver.
Qed.

Lemma flush_table_find rows rows' z x :
  flush_table rows = Return rows' →
  find_by_id z rows = Some (Persistent, x) →
  find_by_id z rows' = Some (Persistent, x).
Proof.
  intros Hf Hz. eapply flush_rows_find; [exact Hf | | exact Hz].
  by eapply find_by_id_in.
Qed.

(** The reference to the object added last reads, after the flush,
    the key the object received, and the first row with that key is
    that object. *)
Lemma flush_table_snoc old x rows' :
  flush_table (old ++ [(Pending, x)]) = Return rows' →
  get_id x = PNone →
  ∃ z, id_of rows' (length old) = PInt z ∧
       find_by_id z rows' = Some (Persistent, set_id (PInt z) x).
Proof.
  unfold flush_table. intros Hf Hx.
  destruct (flush_rows_snoc old _ x rows' Hf Hx) as (old' & z & -> & Hlen & Hz & _).
  { rewrite table_ids_app. set_solver. }
  exists z. split.
  - unfold id_of. rewrite <- Hlen, list_lookup_middle by done. apply get_set_id.
  - rewrite find_by_id_app_r by (by apply find_by_id_None).
    unfold find_by_id. cbn [find row_id]. rewrite get_set_id.
    by rewrite bool_decide_eq_true_2.
Qed.
End Flush.

Lemma Session_flush_Return s s' :
  Session_flush s = Return s' →
  flush_table (addresses s) = Return (addresses s') ∧
  flush_table (companies s) = Return (companies s') ∧
  flush_table (credit_cards s) = Return (credit_cards s') ∧
  flush_table (users s) = Return (users s').
Proof.
  unfold Session_flush.
  destruct (flush_table (addresses s)); [| done].
  destruct (flush_table (companies s)); [| done].
  destruct (flush_table (credit_cards s)); [| done].
  destruct (flush_table (users s)); [| done].
  by intros [= <-].
Qed.

Lemma Session_flush_lengths s s' :
  Session_flush s = Return s' →
  length (addresses s') = length (addresses s) ∧
  length (companies s') = length (companies s) ∧
  length (credit_cards s') = length (credit_cards s) ∧
  length (users s') = length (users s).
Proof.
  intros (Ha & Hc & Hcc & Hu)%Session_flush_Return.
  repeat split; by eapply flush_rows_length.
Qed.

(* ================================================================== *)
(** ** Pairings, and what keeps them *)
(* ================================================================== *)

Lemma dict_get_strip dict k : k ∉ nested_keys → dict_get (strip dict) k = dict_get dict k.
Proof.
  intros Hk. unfold dict_get. by rewrite strip_lookup, bool_decide_eq_false_2.
Qed.

Lemma user_from_strip dict u : user_from (strip dict) u ↔ user_from dict u.
Proof.
  unfold user_from.
  rewrite !dict_get_strip by (unfold nested_keys; set_solver). done.
Qed.

Lemma paired_strip s dict c h : paired s (strip dict) c h ↔ paired s dict c h.
Proof.
  unfold paired. split; intros (ust & u & z & card & ? & Hu & ?);
    exists ust, u, z, card; split_and!; try tauto; by apply user_from_strip.
Qed.

Lemma user_from_flushed dict u z :
  User.id u = PNone → user_from dict u → user_from dict (set_id (PInt z) u).
Proof.
  intros Hid ([Hu | Hu] & ?). 
  - split; [right; congruence | done].
  - split; [by right | done].
Qed.

Lemma paired_flush s s' dict c h :
  Session_flush s = Return s' → paired s dict c h → paired s' dict c h.
Proof.
  intros (_ & _ & Hcc & Hu)%Session_flush_Return
         (ust & u & z & card & Hlook & Hfrom & Hlink & Hfind & Hcard).
  destruct (flush_rows_lookup _ _ _ _ _ _ Hu Hlook) as (u' & Hlook' & Hu').
  exists Persistent, u', z, card. split_and!; try done.
  - destruct Hu' as [-> | (_ & Hid & z' & ->)]; [done |]. by apply user_from_flushed.
  - by destruct Hu' as [-> | (_ & Hid & z' & ->)].
  - by eapply flush_table_find.
Qed.

Lemma paired_add_address s a dict c h :
  paired s dict c h → paired (add_address a s).1 dict c h.
Proof. done. Qed.

Lemma paired_add_company s co dict c h :
  paired s dict c h → paired (add_company co s).1 dict c h.
Proof. done. Qed.

Lemma paired_add_credit_card s card dict c h :
  paired s dict c h → paired (add_credit_card card s).1 dict c h.
Proof.
  intros (ust & u & z & card' & ? & ? & ? & Hfind & ?).
  exists ust, u, z, card'. split_and!; try done. simpl. by apply find_by_id_app_l.
Qed.

Lemma paired_add_user s u dict c h :
  paired s dict c h → paired (add_user u s).1 dict c h.
Proof.
  intros (ust & u' & z & card' & Hlook & ? & ? & Hfind & ?).
  exists ust, u', z, card'. split_and!; try done. simpl.
  by apply lookup_app_l_Some.
Qed.

(** A relation between sessions that [add] and a successful flush keep
    is kept by the whole create loop, however it ends. *)
Section SessionRelation.
Context (Rs : Session → Session → Prop) `{!PreOrder Rs}.
Context (Rs_add_address : ∀ a s, Rs s (add_address a s).1).
Context (Rs_add_company : ∀ c s, Rs s (add_company c s).1).
Context (Rs_add_credit_card : ∀ c s, Rs s (add_credit_card c s).1).
Context (Rs_add_user : ∀ u s, Rs s (add_user u s).1).
Context (Rs_flush : ∀ s s', Session_flush s = Return s' → Rs s s').

#[local] Instance on_session_preorder : PreOrder (on_session Rs).
Proof.
  split; unfold on_session.
  - intros st. reflexivity.
  - intros st1 st2 st3 H1 H2. by etransitivity.
Qed.

Lemma on_session_same {A} (m : M A) :
  (∀ st, session (m st).2 = session st) → keeps (on_session Rs) m.
Proof. intros H st. unfold on_session. by rewrite H. Qed.

Lemma on_session_record c : keeps (on_session Rs) (record c).
Proof. by apply on_session_same. Qed.

Lemma on_session_pop d k : keeps (on_session Rs) (pop d k).
Proof. by apply on_session_same. Qed.

Lemma on_session_add_address a : keeps (on_session Rs) (with_session (add_address a)).
Proof. intros st. apply Rs_add_address. Qed.

Lemma on_session_add_company c : keeps (on_session Rs) (with_session (add_company c)).
Proof. intros st. apply Rs_add_company. Qed.

Lemma on_session_add_credit_card c :
  keeps (on_session Rs) (with_session (add_credit_card c)).
Proof. intros st. apply Rs_add_credit_card. Qed.

Lemma on_session_add_user u : keeps (on_session Rs) (with_session (add_user u)).
Proof. intros st. apply Rs_add_user. Qed.

Lemma on_session_db_flush : keeps (on_session Rs) db_flush.
Proof.
  intros st. unfold db_flush, on_session.
  destruct (Session_flush (session st)) eqn:E; [by apply Rs_flush | reflexivity].
Qed.

Ltac session_step :=
  first
    [ apply keeps_ret | apply keeps_raise | apply keeps_read_session
    | apply keeps_read_dict | apply keeps_subscript | apply keeps_subscript_ref
    | apply on_session_record | apply on_session_pop | apply on_session_db_flush
    | apply on_session_add_address | apply on_session_add_company
    | apply on_session_add_credit_card | apply on_session_add_user
    | apply keeps_bind; [| | intros ?] ];
  try match goal with |- PreOrder _ => typeclasses eauto end.

Lemma on_session_create_user d a c cc : keeps (on_session Rs) (create_user d a c cc).
Proof.
  unfold create_user. repeat session_step.
  unfold User_init. repeat case_match; session_step.
Qed.

Lemma on_session_create_loop new_users_data : ∀ cards created,
  keeps (on_session Rs) (create_loop new_users_data cards created).
Proof.
  induction new_users_data as [|d rest IH]; intros cards created.
  - simpl. session_step.
  - destruct cards as [|c cards']; cbn [create_loop]; [session_step |].
    unfold create_address, create_company, create_credit_card, flush_changes.
    repeat first [ apply IH | apply on_session_create_user | session_step ].
Qed.
End SessionRelation.

#[global] Instance pairs_kept_preorder : PreOrder pairs_kept.
Proof. split; unfold pairs_kept; [intros s; auto | intros s1 s2 s3; auto]. Qed.

Lemma pairs_create_loop new_users_data cards created :
  keeps (on_session pairs_kept) (create_loop new_users_data cards created).
Proof.
  apply on_session_create_loop; [typeclasses eauto | ..]; unfold pairs_kept.
  - intros a s dict c h. apply paired_add_address.
  - intros co s dict c h. apply paired_add_company.
  - intros card s dict c h. apply paired_add_credit_card.
  - intros u s dict c h. apply paired_add_user.
  - intros s s' Hf dict c h. by apply paired_flush.
Qed.

#[global] Instance found_kept_preorder : PreOrder found_kept.
Proof. split; unfold found_kept; [intros s; auto | intros s1 s2 s3; auto]. Qed.

Lemma found_flush s s' : Session_flush s = Return s' → found_kept s s'.
Proof.
  intros (_ & _ & _ & Hu)%Session_flush_Return z [[ust u] Hfind].
  assert (ust = Persistent) as ->.
  { apply find_some in Hfind as [_ Hr]. apply bool_decide_eq_true in Hr.
    by destruct ust. }
  rewrite (flush_table_find _ _ _ _ Hu Hfind). eauto.
Qed.

Lemma found_create_loop new_users_data cards created :
  keeps (on_session found_kept) (create_loop new_users_data cards created).
Proof.
  apply on_session_create_loop; [typeclasses eauto | ..]; unfold found_kept;
    try done.
  - intros u s z [r Hr]. simpl. rewrite (find_by_id_app_l _ _ _ _ Hr). eauto.
  - intros s s' Hf. by apply found_flush.
Qed.

(* ================================================================== *)
(** ** The create loop, when it returns *)
(* ================================================================== *)

Lemma subscript_Return v k x st st' :
  subscript v k st = (Return x, st') →
  st' = st ∧ ∃ d, v = PDict d ∧ d !! k = Some x.
Proof.
  destruct v; try done. simpl. destruct (d !! k) eqn:E; [| done].
  intros [= <- <-]. eauto.
Qed.

Lemma subscript_ref_Return d k x st st' :
  subscript_ref d k st = (Return x, st') → st' = st.
Proof.
  unfold subscript_ref. rewrite bind_eq. cbn [read_dict].
  by intros [-> _]%subscript_Return.
Qed.

Ltac invert_bind H :=
  let a := fresh "a" in
  let st := fresh "st" in
  let H1 := fresh "Hstep" in
  apply bind_Return in H as (a & st & H1 & H).

Ltac invert_subscript H :=
  let a := fresh "v" in
  let st := fresh "st" in
  let H1 := fresh "Hsub" in
  let d := fresh "d" in
  apply bind_Return in H as (a & st & H1 & H);
  apply subscript_Return in H1 as (-> & d & ? & H1).

Lemma create_address_Return data st h st' :
  create_address data st = (Return h, st') →
  ∃ a, h = length (addresses (session st)) ∧
       session st' = (add_address a (session st)).1 ∧
       heap st' = heap st.
Proof.
  unfold create_address. intros H. invert_bind H.
  injection Hstep as <- <-.
  do 8 invert_subscript H.
  injection H as <- <-. eauto.
Qed.

Lemma create_company_Return data st h st' :
  create_company data st = (Return h, st') →
  ∃ co, h = length (companies (session st)) ∧
        session st' = (add_company co (session st)).1 ∧
        heap st' = heap st.
Proof.
  unfold create_company. intros H. invert_bind H.
  injection Hstep as <- <-.
  do 3 invert_subscript H.
  injection H as <- <-. eauto.
Qed.

Lemma create_credit_card_Return data st h st' :
  create_credit_card data st = (Return h, st') →
  ∃ card, h = length (credit_cards (session st)) ∧
          CreditCard.id card = PNone ∧
          card_from data card ∧
          session st' = (add_credit_card card (session st)).1 ∧
          heap st' = heap st.
Proof.
  unfold create_credit_card. intros H. invert_bind H.
  injection Hstep as <- <-.
  do 4 invert_subscript H.
  injection H as <- <-.
  eexists (CreditCard.mk PNone _ _ _ _). split_and!; try done.
  subst data. simplify_eq. eexists. split_and!; [done | done..].
Qed.

Lemma flush_changes_Return st u st' :
  flush_changes st = (Return u, st') →
  Session_flush (session st) = Return (session st') ∧ heap st' = heap st.
Proof.
  unfold flush_changes. intros H. invert_bind H.
  injection Hstep as <- <-. unfold db_flush in H. cbn [session heap calls] in H.
  destruct (Session_flush (session st)); [| done]. by injection H as <- <-.
Qed.

Lemma User_init_Return dict a c cc st u st' :
  User_init dict a c cc st = (Return u, st') →
  st' = st ∧ user_from dict u ∧ User.credit_card_id u = cc.
Proof.
  unfold User_init. repeat case_match; try done.
  intros [= <- <-]. split; [done |]. split; [| done].
  unfold user_from. simpl. tauto.
Qed.

Lemma create_user_Return d a c cc st h st' :
  create_user d a c cc st = (Return h, st') →
  ∃ u, h = length (users (session st)) ∧
       user_from (deref (heap st) d) u ∧
       User.credit_card_id u = cc ∧
       session st' = (add_user u (session st)).1 ∧
       heap st' = alter strip d (heap st).
Proof.
  rewrite create_user_eq. intros H. invert_bind H.
  apply User_init_Return in Hstep as (-> & Hfrom & Hcc).
  injection H as <- <-. exists a0. split_and!; try done.
  by apply user_from_strip.
Qed.

Lemma card_from_flushed c card z :
  card_from c card → card_from c (set_id (PInt z) card).
Proof. done. Qed.

(** One turn of the loop, on the session: the three objects are added,
    the flush inserts them, the user is added with the keys read back. *)
Lemma iteration_paired s0 a co card s4 u dict c :
  Session_flush
    (add_credit_card card (add_company co (add_address a s0).1).1).1 = Return s4 →
  CreditCard.id card = PNone →
  card_from c card →
  user_from dict u →
  User.credit_card_id u = id_of (credit_cards s4) (length (credit_cards s0)) →
  paired (add_user u s4).1 dict c (length (users s0)) ∧
  length (addresses s4) = S (length (addresses s0)) ∧
  length (companies s4) = S (length (companies s0)) ∧
  length (credit_cards s4) = S (length (credit_cards s0)) ∧
  length (users s4) = length (users s0).
Proof.
  intros Hflush Hid Hcard Hfrom Hlink.
  pose proof (Session_flush_lengths _ _ Hflush) as (La & Lc & Lcc & Lu).
  cbn [add_address add_company add_credit_card addresses companies credit_cards
       users fst] in La, Lc, Lcc, Lu.
  rewrite length_app in La, Lc, Lcc. cbn [length] in La, Lc, Lcc.
  split; [| lia].
  apply Session_flush_Return in Hflush as (_ & _ & Hcc & _).
  cbn [add_address add_company add_credit_card credit_cards fst] in Hcc.
  destruct (flush_table_snoc _ _ _ Hcc Hid) as (z & Hz & Hfind).
  exists Pending, u, z, (set_id (PInt z) card). split_and!.
  - cbn [add_user users fst]. rewrite <- Lu. by apply list_lookup_middle.
  - exact Hfrom.
  - by rewrite Hlink.
  - exact Hfind.
  - by apply card_from_flushed.
Qed.

Lemma deref_alter_strip_cases d d' h :
  deref (alter strip d h) d' = deref h d' ∨
  deref (alter strip d h) d' = strip (deref h d').
Proof.
  destruct (decide (d' = d)) as [-> | Hne].
  - right. apply deref_alter_strip.
  - left. unfold deref. by rewrite lookup_alter_ne.
Qed.

(** The loop, when it returns: one user per new record, in order, each
    paired with the card record of the same position. *)
Lemma create_loop_Return new_users_data : ∀ cards created st res st',
  create_loop new_users_data cards created st = (Return res, st') →
  res = created ++ seq (length (users (session st))) (length new_users_data) ∧
  length (addresses (session st'))
    = length (addresses (session st)) + length new_users_data ∧
  length (companies (session st'))
    = length (companies (session st)) + length new_users_data ∧
  length (credit_cards (session st'))
    = length (credit_cards (session st)) + length new_users_data ∧
  length (users (session st'))
    = length (users (session st)) + length new_users_data ∧
  ∀ i d, new_users_data !! i = Some d →
         ∃ c, cards !! i = Some c ∧
              paired (session st') (deref (heap st) d) c
                (length (users (session st)) + i).
Proof.
  induction new_users_data as [|d rest IH]; intros cards created st res st' H.
  - injection H as <- <-. rewrite app_nil_r. simpl. split_and!; try lia; done.
  - destruct cards as [|c cards']; cbn [create_loop] in H; [done |].
    apply bind_Return in H as (address_data & s_a & Hstep & H).
    apply subscript_ref_Return in Hstep as ->.
    apply bind_Return in H as (address & st_a & Hstep & H).
    apply create_address_Return in Hstep as (adr & -> & Sa & Ha).
    apply bind_Return in H as (company_data & s_c & Hstep & H).
    apply subscript_ref_Return in Hstep as ->.
    apply bind_Return in H as (company & st_c & Hstep & H).
    apply create_company_Return in Hstep as (co & -> & Sc & Hc).
    apply bind_Return in H as (credit_card & st_cc & Hstep & H).
    apply create_credit_card_Return in Hstep as (card & -> & Hid & Hcard & Scc & Hcc).
    apply bind_Return in H as (? & st_f & Hstep & H).
    apply flush_changes_Return in Hstep as (Hflush & Hf).
    apply bind_Return in H as (address_id & ? & [= <- <-] & H).
    apply bind_Return in H as (company_id & ? & [= <- <-] & H).
    apply bind_Return in H as (credit_card_id & ? & [= <- <-] & H).
    apply bind_Return in H as (user & st_u & Hstep & H).
    apply create_user_Return in Hstep as (u & -> & Hfrom & Hlink & Su & Hu).
    rewrite Scc, Sc, Sa in Hflush.
    assert (Hheap : heap st_f = heap st) by congruence.
    rewrite Hheap in Hfrom.
    assert (Hlen : length (credit_cards (session st_c))
                   = length (credit_cards (session st))).
    { by rewrite Sc, Sa. }
    rewrite Hlen in Hlink.
    destruct (iteration_paired _ _ _ _ _ _ _ c Hflush Hid Hcard Hfrom Hlink)
      as (Hpair & La & Lc & Lcc & Lu).
    rewrite <- Su in Hpair.
    assert (Hkeep : on_session pairs_kept st_u st').
    { exact (keeps_run _ _ _ _ _ (pairs_create_loop _ _ _) H). }
    destruct (IH _ _ _ _ _ H) as (Hres & La' & Lc' & Lcc' & Lu' & Hrest).
    rewrite Su in La', Lc', Lcc', Lu', Hres, Hrest.
    cbn [add_user addresses companies credit_cards users fst] in *.
    rewrite length_app in Lu', Hres, Hrest. cbn [length] in *.
    split_and!; try lia.
    + rewrite Hres, Lu, <- app_assoc. cbn [app seq]. do 3 f_equal. lia.
    + intros [|i] d' Hd'; cbn in Hd'.
      * injection Hd' as <-. exists c. split; [done |].
        rewrite Nat.add_0_r. by apply Hkeep.
      * destruct (Hrest i d' Hd') as (c' & Hc' & Hp). exists c'. split; [done |].
        replace (length (users (session st)) + S i)
          with (length (users (session st_f)) + 1 + i) by lia.
        rewrite Hu, Hheap in Hp.
        destruct (deref_alter_strip_cases d d' (heap st)) as [E | E];
          rewrite E in Hp; [done | by apply paired_strip].
Qed.

(** C3 — positional pairing.  In a pass that returns, the returned
    list holds one reference per new user, in fetch order: they are the
    users added to the session by the pass, in the order they were
    added.  The i-th of them is built from the i-th new record, and its
    [credit_card_id] is the key of the card row built from the i-th
    auxiliary record. *)
Theorem sync_users_positional_pairing users_data credit_card_client st created st' :
  sync_users users_data credit_card_client st = (Return created, st') →
  created = seq (length (users (session st)))
              (length (new_users (session st) (heap st) users_data)) ∧
  length created = length (new_users (session st) (heap st) users_data) ∧
  ∀ i d,
    new_users (session st) (heap st) users_data !! i = Some d →
    ∃ c user,
      credit_card_client
        (Z.of_nat (length (new_users (session st) (heap st) users_data))) !! i
        = Some c ∧
      created !! i = Some user ∧
      paired (session st') (deref (heap st) d) c user.
Proof.
  rewrite sync_users_eq. cbv zeta. case_bool_decide as Hnu.
  - intros [= <- <-]. rewrite Hnu. split_and!; done.
  - case_bool_decide as Hshort; [done |]. intros Hloop.
    apply create_loop_Return in Hloop as (-> & _ & _ & _ & _ & Hpairs).
    cbn [after_batch session heap app] in *.
    split_and!; [done | by rewrite length_seq |].
    intros i d Hd. destruct (Hpairs i d Hd) as (c & Hc & Hp).
    exists c, (length (users (session st)) + i). split_and!; [done | | done].
    apply lookup_seq. split; [done |]. by eapply lookup_lt_Some.
Qed.

Lemma sync_users_positional_pairing_witness :
  ∃ st',
    sync_users [0; 1; 2] three_cards fresh_state = (Return [0; 1; 2], st') ∧
    ∀ i d,
      [0; 1; 2] !! i = Some d →
      ∃ c user,
        three_cards 3 !! i = Some c ∧
        [0; 1; 2] !! i = Some user ∧
        paired (session st') (deref (heap fresh_state) d) c user.
Proof.
  destruct (sync_users [0; 1; 2] three_cards fresh_state) as [r st'] eqn:Hrun.
  assert (Hr : r = Return [0; 1; 2]).
  { change r with (r, st').1. rewrite <- Hrun. vm_compute. reflexivity. }
  subst r. exists st'. split; [reflexivity |].
  pose proof (sync_users_positional_pairing _ _ _ _ _ Hrun) as (_ & _ & Hpairs).
  assert (Hnu : new_users (session fresh_state) (heap fresh_state) [0; 1; 2]
                = [0; 1; 2]) by (vm_compute; reflexivity).
  rewrite Hnu in Hpairs. exact Hpairs.
Defined.

(* ------------------------------------------------------------------ *)
(** *** A second pass over the same directory data *)

Lemma is_new_false_found s h d :
  is_new s h d = false → is_Some (query_user_first (dict_get (deref h d) "id") s).
Proof. unfold is_new. destruct (query_user_first _ _); [eauto | done]. Qed.

Lemma query_user_first_found z s :
  is_Some (find_by_id z (users s)) → is_Some (query_user_first (PInt z) s).
Proof. intros [r Hr]. simpl. rewrite Hr. eauto. Qed.

Lemma found_before z (s : Session) :
  is_Some (query_user_first (PInt z) s) → is_Some (find_by_id z (users s)).
Proof. simpl. by intros ?%fmap_is_Some. Qed.

(** The situation of C4's parenthesis (the idempotence of the spec):
    after a pass that returned, once the caller's [session.commit()]
    has flushed what the pass left pending, the lookup of every
    fetched id finds a row — provided every fetched record carries an
    integer id — so that the next pass over the same directory data
    returns the empty list and asks for no cards. *)
Lemma sync_users_twice users_data client client' st created st' committed st2 :
  sync_users users_data client st = (Return created, st') →
  Session_flush (session st') = Return committed →
  Forall (λ d, ∃ z, dict_get (deref (heap st) d) "id" = PInt z) users_data →
  session st2 = committed →
  Forall (λ d, dict_get (deref (heap st2) d) "id" = dict_get (deref (heap st) d) "id")
    users_data →
  sync_users users_data client' st2 = (Return [], after_diff users_data st2).
Proof.
  intros Hrun Hcommit Hint Hsession Hids. apply sync_users_all_found.
  rewrite Hsession. rewrite Forall_forall in Hint, Hids. apply Forall_forall.
  intros d Hd. rewrite (Hids d Hd). destruct (Hint d Hd) as [z Hz]. rewrite Hz.
  apply query_user_first_found.
  assert (Hold : is_new (session st) (heap st) d = false →
                 is_Some (find_by_id z (users (session st)))).
  { intros Hnew%is_new_false_found. rewrite Hz in Hnew. by apply found_before. }
  rewrite sync_users_eq in Hrun. cbv zeta in Hrun.
  case_bool_decide as Hnu.
  - injection Hrun as <- <-. apply (found_flush _ _ Hcommit), Hold.
    apply new_users_nil_iff in Hnu. rewrite Forall_forall in Hnu. by apply Hnu.
  - case_bool_decide as Hshort; [done |].
    destruct (is_new (session st) (heap st) d) eqn:Hnew.
    + assert (Hin : d ∈ new_users (session st) (heap st) users_data).
      { apply list_elem_of_In, filter_In. split; [by apply list_elem_of_In | done]. }
      apply list_elem_of_lookup in Hin as [i Hi].
      apply create_loop_Return in Hrun as (_ & _ & _ & _ & _ & Hpairs).
      destruct (Hpairs i d Hi) as (c & _ & ust & u & zc & card & Hu & Hfrom & _).
      cbn [after_batch heap] in Hfrom. destruct Hfrom as [Hid _].
      rewrite Hz in Hid. destruct Hid as [Hid | Hid]; [| done].
      apply Session_flush_Return in Hcommit as (_ & _ & _ & Hflush).
      destruct (flush_rows_lookup _ _ _ _ _ _ Hflush Hu) as (u' & Hu' & Hsame).
      apply find_by_id_is_Some. eapply lookup_table_ids; [exact Hu' |].
      destruct Hsame as [-> | (_ & Hnone & _)]; [exact Hid |].
      simpl in Hnone. congruence.
    + apply (found_flush _ _ Hcommit).
      apply (keeps_run _ _ _ _ _ (found_create_loop _ _ _) Hrun).
      by apply Hold.
Qed.

(** The three test users, synchronised, committed, and fetched again:
    the second pass creates nothing. *)
Example second_pass_creates_nothing :
  match Session_flush (session (sync_users [0; 1; 2] three_cards fresh_state).2) with
  | Return committed =>
      (sync_users [0; 1; 2] three_cards
         (mkState committed three_users_heap [])).1 = Return []
  | Raise _ => False
  end.
Proof. vm_compute. reflexivity. Qed.

(* ================================================================== *)
(** ** The create loop on well-formed input: it returns *)
(* ================================================================== *)

Lemma bind_run {A B} (m : M A) (k : A → M B) st a st' :
  m st = (Return a, st') → (m ≫= k) st = k a st'.
Proof. intros H. by rewrite bind_eq, H. Qed.

Lemma filled_Some d k : filled d k = true → ∃ v, d !! k = Some v ∧ is_none v = false.
Proof.
  unfold filled. destruct (d !! k) as [[| | |s| |]|]; try done. eauto.
Qed.

Ltac split_filled H :=
  unfold geo_keys, company_keys, card_keys in H;
  cbn [forallb] in H;
  repeat match type of H with
         | _ && _ = true => let H1 := fresh "Hf" in apply andb_prop in H as [H1 H]
         end;
  repeat match goal with
         | Hf : filled _ _ = true |- _ =>
             let v := fresh "v" in
             let Hv := fresh "Hv" in
             let Hn := fresh "Hn" in
             apply filled_Some in Hf as (v & Hv & Hn)
         end.

Lemma create_address_returns data st :
  address_ok data = true →
  ∃ a, create_address data st
       = (Return (length (addresses (session st))),
          mkState (add_address a (session st)).1 (heap st)
            (calls st ++ [create_address_call data])) ∧
       Address.id a = PNone ∧ not_null a = true.
Proof.
  destruct data as [| | | | |d]; try done. cbn [address_ok].
  intros [Hfields Hgeo]%andb_prop.
  destruct (d !! "geo") as [[| | | | |g]|] eqn:Eg; try done.
  split_filled Hfields. split_filled Hgeo.
  eexists (Address.mk PNone _ _ _ _ _ _).
  unfold create_address. rewrite bind_eq. cbn [record].
  repeat (erewrite bind_run; [| by apply subscript_Some]).
  split; [reflexivity |]. split; [reflexivity |].
  cbn. by repeat (apply andb_true_intro; split; [by apply negb_true_iff |]).
Qed.

Lemma create_company_returns data st :
  company_ok data = true →
  ∃ c, create_company data st
       = (Return (length (companies (session st))),
          mkState (add_company c (session st)).1 (heap st)
            (calls st ++ [create_company_call data])) ∧
       Company.id c = PNone ∧ not_null c = true.
Proof.
  destruct data as [| | | | |d]; try done. cbn [company_ok]. intros Hfields.
  split_filled Hfields.
  eexists (Company.mk PNone _ _ _).
  unfold create_company. rewrite bind_eq. cbn [record].
  repeat (erewrite bind_run; [| by apply subscript_Some]).
  split; [reflexivity |]. split; [reflexivity |].
  cbn. by repeat (apply andb_true_intro; split; [by apply negb_true_iff |]).
Qed.

Lemma create_credit_card_returns data st :
  card_ok data = true →
  ∃ c, create_credit_card data st
       = (Return (length (credit_cards (session st))),
          mkState (add_credit_card c (session st)).1 (heap st)
            (calls st ++ [create_credit_card_call data])) ∧
       CreditCard.id c = PNone ∧ not_null c = true.
Proof.
  destruct data as [| | | | |d]; try done. cbn [card_ok]. intros Hfields.
  split_filled Hfields.
  eexists (CreditCard.mk PNone _ _ _ _).
  unfold create_credit_card. rewrite bind_eq. cbn [record].
  repeat (erewrite bind_run; [| by apply subscript_Some]).
  split; [reflexivity |]. split; [reflexivity |].
  cbn. by repeat (apply andb_true_intro; split; [by apply negb_true_iff |]).
Qed.

Lemma keys_forallb (m : pydict) (P : string → bool) :
  forallb P (map fst (map_to_list m)) = true →
  ∀ k, is_Some (m !! k) → P k = true.
Proof.
  rewrite forallb_forall. intros H k [v Hv]. apply H.
  apply in_map_iff. exists (k, v). split; [done |].
  by apply list_elem_of_In, elem_of_map_to_list.
Qed.

Lemma forallb_keys (m : pydict) (P : string → bool) :
  (∀ k, is_Some (m !! k) → P k = true) →
  forallb P (map fst (map_to_list m)) = true.
Proof.
  intros H. apply forallb_forall. intros k [[k' v] [<- Hin]]%in_map_iff.
  apply H. exists v. by apply elem_of_map_to_list, list_elem_of_In.
Qed.

Lemma User_init_returns dict a c cc st :
  record_ok dict = true → is_none a = false → is_none c = false →
  ∃ u z, User_init (strip dict) a c cc st = (Return u, st) ∧
         not_null u = true ∧ User.id u = PInt z ∧ dict_get dict "id" = PInt z.
Proof.
  unfold record_ok. intros H Ha Hc.
  apply andb_prop in H as [H Hid]. apply andb_prop in H as [H Hcols].
  apply andb_prop in H as [_ Hkeys].
  pose proof (keys_forallb _ _ Hkeys) as Hk. clear Hkeys.
  destruct (dict !! "id") as [[| |z| | |]|] eqn:Eid; try done.
  split_filled Hcols.
  assert (Hnone : ∀ k, k ∉ user_columns ++ nested_keys → strip dict !! k = None).
  { intros k Hnot. rewrite strip_lookup. case_bool_decide; [done |].
    destruct (dict !! k) eqn:E; [| done]. exfalso. apply Hnot.
    eapply bool_decide_eq_true, Hk. by rewrite E. }
  unfold User_init.
  assert (Hexp : existsb (λ k, bool_decide (is_Some (strip dict !! k))) explicit_keywords
                 = false).
  { unfold explicit_keywords. cbn [existsb].
    rewrite !Hnone by (unfold user_columns, nested_keys; set_solver).
    by rewrite bool_decide_eq_false_2 by (by intros [? ?]). }
  rewrite Hexp.
  assert (Hall : forallb (λ k, bool_decide (k ∈ user_columns))
                   (map fst (map_to_list (strip dict))) = true).
  { apply forallb_keys. intros k Hsome. apply bool_decide_eq_true.
    rewrite strip_lookup in Hsome. case_bool_decide as Hnested; [by destruct Hsome |].
    specialize (Hk k Hsome). apply bool_decide_eq_true in Hk.
    apply elem_of_app in Hk as [Hk | Hk]; done. }
  rewrite Hall. cbn [negb].
  eexists _, z. split; [reflexivity |].
  rewrite !dict_get_strip by (unfold nested_keys; set_solver).
  unfold dict_get. rewrite Eid, Hv, Hv0, Hv1, Hv2, Hv3. cbn.
  rewrite Hn, Hn0, Hn1, Hn2, Hn3, Ha, Hc. done.
Qed.

Lemma create_user_returns d a c cc st :
  record_ok (deref (heap st) d) = true → is_none a = false → is_none c = false →
  ∃ u z, create_user d a c cc st
         = (Return (length (users (session st))),
            mkState (add_user u (session st)).1 (alter strip d (heap st))
              (calls st ++ [create_user_call d a c cc])) ∧
         not_null u = true ∧ User.id u = PInt z ∧ record_id (heap st) d = Some z.
Proof.
  intros Hok Ha Hc. rewrite create_user_eq.
  destruct (User_init_returns _ a c cc
              (mkState (session st) (alter strip d (heap st))
                 (calls st ++ [create_user_call d a c cc])) Hok Ha Hc)
    as (u & z & Hinit & Hnn & Hid & Hz).
  exists u, z. rewrite (bind_run _ _ _ _ _ Hinit).
  split; [reflexivity |]. split; [done |]. split; [done |].
  unfold record_id. by rewrite Hz.
Qed.

Section FlushReturns.
Context {T : Type} `{Entity T}.
Implicit Types (rows : list (instance_state * T)) (ids : list Z) (x : T).

Lemma flush_rows_persistent rows : ∀ ids,
  all_persistent rows → flush_rows ids rows = Return rows.
Proof.
  induction rows as [|[st x] rest IH]; intros ids Hall; [done |].
  apply Forall_cons in Hall as [Hst Hall]. simpl in Hst. subst st.
  cbn [flush_rows]. by rewrite IH.
Qed.

Lemma flush_rows_snoc_new inserted x : ∀ ids,
  all_persistent inserted → not_null x = true → get_id x = PNone →
  flush_rows ids (inserted ++ [(Pending, x)])
  = Return (inserted ++ [(Persistent, set_id (PInt (next_id ids)) x)]).
Proof.
  induction inserted as [|[st y] rest IH]; intros ids Hall Hnn Hid.
  - cbn [app flush_rows]. by rewrite Hnn, Hid.
  - apply Forall_cons in Hall as [Hst Hall]. simpl in Hst. subst st.
    cbn [app flush_rows]. by rewrite IH.
Qed.

Lemma flush_rows_snoc_keyed inserted x z : ∀ ids,
  all_persistent inserted → not_null x = true → get_id x = PInt z → z ∉ ids →
  flush_rows ids (inserted ++ [(Pending, x)]) = Return (inserted ++ [(Persistent, x)]).
Proof.
  induction inserted as [|[st y] rest IH]; intros ids Hall Hnn Hid Hz.
  - cbn [app flush_rows]. rewrite Hnn, Hid. cbn [negb].
    by rewrite bool_decide_eq_false_2.
  - apply Forall_cons in Hall as [Hst Hall]. simpl in Hst. subst st.
    cbn [app flush_rows]. by rewrite IH.
Qed.

Lemma table_ids_snoc_pending rows x :
  table_ids (rows ++ [(Pending, x)]) = table_ids rows.
Proof. by rewrite table_ids_app, app_nil_r. Qed.

Lemma flush_table_new inserted x :
  all_persistent inserted → not_null x = true → get_id x = PNone →
  ∃ z, flush_table (inserted ++ [(Pending, x)])
       = Return (inserted ++ [(Persistent, set_id (PInt z) x)]).
Proof. intros. eexists. unfold flush_table. by apply flush_rows_snoc_new. Qed.

Lemma flush_table_keyed inserted x z :
  all_persistent inserted → not_null x = true → get_id x = PInt z →
  z ∉ table_ids inserted →
  flush_table (inserted ++ [(Pending, x)]) = Return (inserted ++ [(Persistent, x)]).
Proof.
  intros. unfold flush_table. eapply flush_rows_snoc_keyed; try done.
  by rewrite table_ids_snoc_pending.
Qed.

Lemma all_persistent_snoc rows x :
  all_persistent rows → all_persistent (rows ++ [(Persistent, x)]).
Proof. intros. apply Forall_app. split; [done |]. by repeat constructor. Qed.

Lemma id_of_snoc rows st x : id_of (rows ++ [(st, x)]) (length rows) = get_id x.
Proof. unfold id_of. by rewrite list_lookup_middle. Qed.

Lemma find_by_id_not_in z rows : find_by_id z rows = None → z ∉ table_ids rows.
Proof.
  intros Hnone Hin. apply find_by_id_is_Some in Hin as [r Hr]. congruence.
Qed.
End FlushReturns.

(** The flush of a turn: everything staged is inserted, the three keys
    can be read back, and the keys still to come stay free. *)
Lemma flush_ready s ids a co card :
  ready s ids →
  Address.id a = PNone → not_null a = true →
  Company.id co = PNone → not_null co = true →
  CreditCard.id card = PNone → not_null card = true →
  ∃ s4 za zc zcc,
    Session_flush (add_credit_card card (add_company co (add_address a s).1).1).1
      = Return s4 ∧
    clean s4 ∧
    id_of (addresses s4) (length (addresses s)) = PInt za ∧
    id_of (companies s4) (length (companies s)) = PInt zc ∧
    id_of (credit_cards s4) (length (credit_cards s)) = PInt zcc ∧
    (∀ z, z ∈ ids → z ∉ table_ids (users s4)).
Proof.
  intros (Pa & Pc & Pcc & inserted & pending & Eu & Pu & Hfree & Hpend) Ia Na Ic Nc Icc Ncc.
  destruct (flush_table_new (addresses s) a Pa Na Ia) as [za Fa].
  destruct (flush_table_new (companies s) co Pc Nc Ic) as [zc Fc].
  destruct (flush_table_new (credit_cards s) card Pcc Ncc Icc) as [zcc Fcc].
  assert (∃ us, flush_table (users s) = Return us ∧ all_persistent us ∧
                ∀ z, z ∈ ids → z ∉ table_ids us) as (us & Fu & Pus & Hus).
  { rewrite Eu. destruct Hpend as [-> | (u & z & -> & Nu & Iu & Hz & Hzi)].
    - rewrite app_nil_r. exists inserted. split_and!; try done.
      by apply flush_rows_persistent.
    - exists (inserted ++ [(Persistent, u)]). split_and!.
      + by eapply flush_table_keyed.
      + by apply all_persistent_snoc.
      + intros z' Hz'. rewrite table_ids_app, table_ids_cons. cbn [row_id get_id User_entity].
        rewrite Iu. intros [Hin | Hin%list_elem_of_singleton]%elem_of_app.
        * by apply (Hfree z').
        * by subst z'. }
  exists (mkSession (addresses s ++ [(Persistent, set_id (PInt za) a)])
            (companies s ++ [(Persistent, set_id (PInt zc) co)])
            (credit_cards s ++ [(Persistent, set_id (PInt zcc) card)]) us), za, zc, zcc.
  split_and!.
  - unfold Session_flush.
    cbn [add_address add_company add_credit_card addresses companies credit_cards
         users fst].
    by rewrite Fa, Fc, Fcc, Fu.
  - split_and!; cbn [addresses companies credit_cards users];
      try done; by apply all_persistent_snoc.
  - cbn [addresses]. by rewrite id_of_snoc.
  - cbn [companies]. by rewrite id_of_snoc.
  - cbn [credit_cards]. by rewrite id_of_snoc.
  - exact Hus.
Qed.

Lemma ready_next s4 u z ids :
  clean s4 → (∀ z', z' ∈ z :: ids → z' ∉ table_ids (users s4)) →
  not_null u = true → User.id u = PInt z → z ∉ ids →
  ready (add_user u s4).1 ids.
Proof.
  intros (Pa & Pc & Pcc & Pu) Hfree Nu Iu Hz. split_and!; try done.
  exists (users s4), [(Pending, u)]. split_and!; try done.
  - intros z' Hz'. apply Hfree. set_solver.
  - right. exists u, z. split_and!; try done. apply Hfree. set_solver.
Qed.

Lemma ready_clean s ids :
  clean s → (∀ z, z ∈ ids → z ∉ table_ids (users s)) → ready s ids.
Proof.
  intros (Pa & Pc & Pcc & Pu) Hfree. split_and!; try done.
  exists (users s), []. rewrite app_nil_r. split_and!; try done. by left.
Qed.

Lemma subscript_ref_returns d k v st :
  deref (heap st) d !! k = Some v → subscript_ref d k st = (Return v, st).
Proof.
  intros Hv. unfold subscript_ref. rewrite bind_eq. cbn [read_dict].
  by apply subscript_Some.
Qed.

Lemma flush_changes_returns st s4 :
  Session_flush (session st) = Return s4 →
  flush_changes st
  = (Return tt, mkState s4 (heap st) (calls st ++ [flush_changes_call])).
Proof.
  intros Hf. unfold flush_changes. rewrite bind_eq. cbn [record].
  unfold db_flush. cbn [session heap calls]. by rewrite Hf.
Qed.

Lemma record_ok_nested dict :
  record_ok dict = true →
  ∃ a c, dict !! "address" = Some a ∧ address_ok a = true ∧
         dict !! "company" = Some c ∧ company_ok c = true.
Proof.
  unfold record_ok. intros H.
  do 3 apply andb_prop in H as [H _].
  apply andb_prop in H as [Ha Hc].
  destruct (dict !! "address") as [a|]; [| done].
  destruct (dict !! "company") as [c|]; [| done]. eauto 10.
Qed.

(** On well-formed records and cards, from a ready session, the loop
    runs to its end. *)
Lemma create_loop_returns new_users_data : ∀ ids cards created st,
  length new_users_data ≤ length cards →
  Forall (λ d, record_ok (deref (heap st) d) = true) new_users_data →
  record_id (heap st) <$> new_users_data = Some <$> ids →
  NoDup ids →
  Forall (λ c, card_ok c = true) (take (length new_users_data) cards) →
  ready (session st) ids →
  ∃ res st', create_loop new_users_data cards created st = (Return res, st').
Proof.
  induction new_users_data as [|d rest IH];
    intros ids cards created st Hlen Hrecords Hids Hnodup Hcards Hready.
  - simpl. eauto.
  - destruct cards as [|c cards']; [simpl in Hlen; lia |].
    destruct ids as [|z ids']; [done |].
    apply Forall_cons in Hrecords as [Hok Hrecords].
    cbn [fmap list_fmap] in Hids. injection Hids as Hz Hids.
    apply NoDup_cons in Hnodup as [Hfresh Hnodup].
    cbn [length take] in Hcards. apply Forall_cons in Hcards as [Hcard Hcards].
    destruct (record_ok_nested _ Hok) as (a & co & Ea & Haok & Ec & Hcok).
    cbn [create_loop].
    rewrite (bind_run _ _ _ _ _ (subscript_ref_returns d "address" a st Ea)).
    destruct (create_address_returns a st Haok) as (adr & Hadr & Ia & Na).
    rewrite (bind_run _ _ _ _ _ Hadr).
    erewrite bind_run; [| by apply subscript_ref_returns].
    destruct (create_company_returns co
                (mkState (add_address adr (session st)).1 (heap st)
                   (calls st ++ [create_address_call a])) Hcok)
      as (com & Hcom & Ic & Nc).
    rewrite (bind_run _ _ _ _ _ Hcom). cbn [session heap calls].
    destruct (create_credit_card_returns c
                (mkState (add_company com (add_address adr (session st)).1).1 (heap st)
                   ((calls st ++ [create_address_call a]) ++ [create_company_call co]))
                Hcard)
      as (card & Hcc & Icc & Ncc).
    rewrite (bind_run _ _ _ _ _ Hcc). cbn [session heap calls].
    destruct (flush_ready _ _ adr com card Hready Ia Na Ic Nc Icc Ncc)
      as (s4 & za & zc & zcc & Hflush & Hclean & Ha & Hc & Hcc' & Hfree).
    erewrite bind_run; [| by apply flush_changes_returns].
    do 3 (rewrite bind_eq;
          cbn [read_session session heap calls add_address add_company
               add_credit_card addresses companies credit_cards users fst]).
    rewrite Ha, Hc, Hcc'.
    match goal with
    | |- ∃ _ _, (create_user d ?x ?y ?w ≫= _) ?s = _ =>
        destruct (create_user_returns d x y w s Hok eq_refl eq_refl)
          as (u & z' & Hu & Nu & Iu & Hz')
    end.
    cbn [heap] in Hz'. assert (z' = z) as -> by congruence.
    rewrite (bind_run _ _ _ _ _ Hu).
    assert (Hother : ∀ d', d' ∈ rest →
              deref (alter strip d (heap st)) d' = deref (heap st) d').
    { intros d' Hd'. unfold deref. rewrite lookup_alter_ne; [done |].
      intros <-. apply Hfresh.
      assert (Hin : record_id (heap st) d ∈ Some <$> ids').
      { rewrite <- Hids. by apply list_elem_of_fmap_2. }
      apply list_elem_of_fmap in Hin as (z'' & Hz'' & Hin). congruence. }
    eapply IH; cbn [session heap calls].
    + simpl in Hlen. lia.
    + rewrite Forall_forall in Hrecords. apply Forall_forall. intros d' Hd'.
      rewrite Hother by done. by apply Hrecords.
    + rewrite <- Hids. apply list_fmap_ext. intros i d' Hd'.
      unfold record_id. rewrite Hother; [done |]. by eapply list_elem_of_lookup_2.
    + exact Hnodup.
    + exact Hcards.
    + by eapply ready_next.
Qed.

Lemma record_ok_id h d : record_ok (deref h d) = true → ∃ z, record_id h d = Some z.
Proof.
  unfold record_ok, record_id, dict_get. intros [_ Hid]%andb_prop.
  destruct (deref h d !! "id") as [[| |z| | |]|]; try done. simpl. eauto.
Qed.

Lemma record_ids h new :
  Forall (λ d, record_ok (deref h d) = true) new →
  ∃ ids, record_id h <$> new = Some <$> ids.
Proof.
  induction 1 as [|d rest Hd _ [ids IH]]; [by exists [] |].
  destruct (record_ok_id _ _ Hd) as [z Hz]. exists (z :: ids).
  cbn [fmap list_fmap]. by rewrite Hz, <- IH.
Qed.

Lemma new_user_key_free s h users_data d z :
  d ∈ new_users s h users_data → record_id h d = Some z → z ∉ table_ids (users s).
Proof.
  intros [_ Hnew]%list_elem_of_In%filter_In. unfold record_id. intros Hz.
  unfold is_new in Hnew. destruct (dict_get (deref h d) "id"); try done.
  injection Hz as ->. apply find_by_id_not_in. simpl in Hnew.
  by destruct (find_by_id z (users s)).
Qed.

(** The empty database meets the two conditions on the stored rows. *)
Lemma cards_linked_empty : cards_linked empty_session.
Proof. constructor. Qed.

Lemma room_empty n : room empty_session n.
Proof. intros z Hz. by apply elem_of_nil in Hz. Qed.

(** A pass over well-formed input, with cards enough, returns. *)
Lemma sync_users_returns users_data credit_card_client st :
  length (new_users (session st) (heap st) users_data)
    ≤ length (credit_card_client
                (Z.of_nat (length (new_users (session st) (heap st) users_data)))) →
  well_formed (session st) (heap st) (new_users (session st) (heap st) users_data)
    (credit_card_client
       (Z.of_nat (length (new_users (session st) (heap st) users_data)))) →
  ∃ created st', sync_users users_data credit_card_client st = (Return created, st').
Proof.
  intros Hlen (Hclean & Hrecords & Hnodup & Hcards & _). rewrite sync_users_eq. cbv zeta.
  case_bool_decide; [eauto |].
  rewrite bool_decide_eq_false_2 by lia.
  destruct (record_ids _ _ Hrecords) as [ids Hids].
  apply (create_loop_returns _ ids); cbn [after_batch session heap]; try done.
  - rewrite Hids in Hnodup. by apply NoDup_fmap in Hnodup; [| apply _].
  - apply ready_clean; [done |]. intros z Hz.
    assert (Hin : Some z ∈ record_id (heap st)
                           <$> new_users (session st) (heap st) users_data).
    { rewrite Hids. by apply list_elem_of_fmap_2. }
    apply list_elem_of_fmap in Hin as (d & Hd & Hin).
    by eapply new_user_key_free.
Qed.

(** C10 — surplus records are ignored.  When the auxiliary client
    returns more records than there are new users, the pass does what
    it does with the first [len(new_users)] records alone: same result,
    same session, same records, same calls.  It does not raise the
    exception of the sufficiency check (nor any plain [Exception]).
    When it returns, each table has grown by one row per new user, the
    i-th user being paired with the i-th of those first records.  And
    it does return when the input is well formed: fetched ids the
    lookups can be made for; a session with nothing staged, whose users
    refer to stored cards and whose keys leave room for the new rows;
    new records and cards with all their fields, values the columns
    store, and pairwise distinct ids. *)
Theorem sync_users_surplus_ignored users_data credit_card_client st :
  length (new_users (session st) (heap st) users_data)
    < length (credit_card_client
                (Z.of_nat (length (new_users (session st) (heap st) users_data)))) →
  sync_users users_data credit_card_client st
    = sync_users users_data
        (λ quantity,
           take (length (new_users (session st) (heap st) users_data))
             (credit_card_client quantity)) st ∧
  (∀ msg, (sync_users users_data credit_card_client st).1 ≠ Raise (Exception msg)) ∧
  (∀ created st',
     sync_users users_data credit_card_client st = (Return created, st') →
     length created = length (new_users (session st) (heap st) users_data) ∧
     length (addresses (session st'))
       = length (addresses (session st))
         + length (new_users (session st) (heap st) users_data) ∧
     length (companies (session st'))
       = length (companies (session st))
         + length (new_users (session st) (heap st) users_data) ∧
     length (credit_cards (session st'))
       = length (credit_cards (session st))
         + length (new_users (session st) (heap st) users_data) ∧
     length (users (session st'))
       = length (users (session st))
         + length (new_users (session st) (heap st) users_data) ∧
     ∀ i d,
       new_users (session st) (heap st) users_data !! i = Some d →
       ∃ c,
         take (length (new_users (session st) (heap st) users_data))
           (credit_card_client
              (Z.of_nat (length (new_users (session st) (heap st) users_data)))) !! i
         = Some c ∧
         paired (session st') (deref (heap st) d) c (length (users (session st)) + i)) ∧
  (lookups_ok (heap st) users_data →
   well_formed (session st) (heap st)
     (new_users (session st) (heap st) users_data)
     (credit_card_client
        (Z.of_nat (length (new_users (session st) (heap st) users_data)))) →
   ∃ created st',
     sync_users users_data credit_card_client st = (Return created, st')).
Proof.
  intros Hmore.
  assert (Hreturns :
    lookups_ok (heap st) users_data →
    well_formed (session st) (heap st)
      (new_users (session st) (heap st) users_data)
      (credit_card_client
         (Z.of_nat (length (new_users (session st) (heap st) users_data)))) →
    ∃ created st',
      sync_users users_data credit_card_client st = (Return created, st')).
  { intros _. apply sync_users_returns. lia. }
  revert Hreturns.
  rewrite !sync_users_eq. cbv zeta. intros Hreturns.
  set (nu := new_users (session st) (heap st) users_data) in *.
  set (cards := credit_card_client (Z.of_nat (length nu))) in *.
  case_bool_decide as Hnu.
  - rewrite Hnu in *. split_and!; [done | done | | done].
    intros created st' [= <- <-]. cbn [after_diff session length]. split_and!; try lia.
    intros i d Hd. by apply lookup_nil_Some in Hd || done.
  - rewrite (bool_decide_eq_false_2 (length cards < length nu)) by lia.
    rewrite (bool_decide_eq_false_2 (length (take (length nu) cards) < length nu))
      by (rewrite length_take; lia).
    split_and!.
    + apply create_loop_take. lia.
    + intros msg Hraise. by apply quiet_create_loop in Hraise.
    + intros created st' Hloop.
      rewrite create_loop_take in Hloop by lia.
      apply create_loop_Return in Hloop as (-> & La & Lc & Lcc & Lu & Hpairs).
      cbn [after_batch session heap app] in *.
      split_and!; try done. by rewrite length_seq.
    + rewrite (bool_decide_eq_false_2 (length cards < length nu)) in Hreturns by lia.
      exact Hreturns.
Qed.

Lemma sync_users_surplus_ignored_witness :
  sync_users [0; 1; 2] four_cards fresh_state
    = sync_users [0; 1; 2] (λ quantity, take 3 (four_cards quantity)) fresh_state ∧
  (∀ msg, (sync_users [0; 1; 2] four_cards fresh_state).1 ≠ Raise (Exception msg)) ∧
  ∃ created st', sync_users [0; 1; 2] four_cards fresh_state = (Return created, st').
Proof.
  assert (Hnu : new_users (session fresh_state) (heap fresh_state) [0; 1; 2]
                = [0; 1; 2]) by (vm_compute; reflexivity).
  pose proof (sync_users_surplus_ignored [0; 1; 2] four_cards fresh_state)
    as Hsurplus.
  rewrite Hnu in Hsurplus.
  destruct Hsurplus as (Heq & Hquiet & _ & Hreturns); [simpl; lia |].
  split_and!; [exact Heq | exact Hquiet |]. apply Hreturns.
  - repeat constructor; vm_compute; reflexivity.
  - split_and!.
    + repeat split; constructor.
    + repeat constructor; vm_compute; reflexivity.
    + apply (bool_decide_unpack _). vm_compute. exact I.
    + repeat constructor; vm_compute; reflexivity.
    + exact cards_linked_empty.
    + exact (room_empty 3).
Defined.

(* ================================================================== *)
(** ** The scenarios of the test suite, run on the model *)
(* ================================================================== *)

(** [test_sync_users_success]: one new user and one card.  One user is
    created, the cards are asked for once, with quantity 1, and user 101
    is staged with the address, the company and the card of the data. *)
Example test_sync_users_success :
  let run := sync_users [0] (λ _, [mock_credit_card]) fresh_state in
  run.1 = Return [0] ∧
  List.filter is_get_credit_cards (calls run.2) = [get_credit_cards_call 1] ∧
  (λ r, (User.id r.2, User.name r.2, User.address_id r.2, User.company_id r.2,
         User.credit_card_id r.2)) <$> users (session run.2)
    = [(PInt 101, PStr "Test User", PInt 1, PInt 1, PInt 1)] ∧
  (λ r, (Address.id r.2, Address.city r.2)) <$> addresses (session run.2)
    = [(PInt 1, PStr "Testville")] ∧
  (λ r, (Company.id r.2, Company.name r.2)) <$> companies (session run.2)
    = [(PInt 1, PStr "Test Company")] ∧
  (λ r, (CreditCard.id r.2, CreditCard.type r.2)) <$> credit_cards (session run.2)
    = [(PInt 1, PStr "Visa")].
Proof. vm_compute. repeat split. Qed.

(** [test_sync_users_insufficient_cards]: three new users and one card.
    The pass raises, the cards were asked for once, with quantity 3,
    and no user exists. *)
Example test_sync_users_insufficient_cards :
  let run := sync_users [0; 1; 2] (λ _, [mock_credit_card]) fresh_state in
  run.1 = Raise (Exception insufficient_msg) ∧
  List.filter is_get_credit_cards (calls run.2) = [get_credit_cards_call 3] ∧
  users (session run.2) = [].
Proof. vm_compute. repeat split. Qed.

(* ================================================================== *)
(** ** The calls of a pass, in order *)
(* ================================================================== *)

Section Marks.
Context {X : Type} (f : call → option X).

Lemma silent_omap cs : forallb (silent f) cs = true → omap f cs = [].
Proof.
  induction cs as [|c cs IH]; [done |]. cbn [forallb].
  intros [Hc Hcs]%andb_prop. unfold silent in Hc. cbn.
  destruct (f c); [done | by apply IH].
Qed.

Lemma marks_ret {A} (a : A) : marks f [] (ret a).
Proof. intros st. exists []. by rewrite app_nil_r. Qed.

Lemma marks_raise {A} xs e : marks f xs (@raise A e).
Proof.
  intros st. exists []. rewrite app_nil_r. split_and!; [done | apply prefix_nil | done].
Qed.

Lemma marks_silent {A B} xs (m : M A) (k : A → M B) :
  keeps (appends (silent f)) m → (∀ a, marks f xs (k a)) → marks f xs (m ≫= k).
Proof.
  intros Hm Hk st. rewrite bind_eq. destruct (Hm st) as (cs1 & E1 & S1%silent_omap).
  destruct (m st) as [[a|e] st1]; cbn [snd] in E1.
  - destruct (Hk a st1) as (cs2 & E2 & Hpre & Hret). exists (cs1 ++ cs2).
    rewrite E2, E1, <- app_assoc, omap_app, S1. done.
  - exists cs1. cbn [fst snd]. rewrite S1. split_and!; [done | apply prefix_nil | done].
Qed.

Lemma marks_emit {A B} x xs (m : M A) (k : A → M B) :
  (∀ st, ∃ cs, calls (m st).2 = calls st ++ cs ∧ omap f cs = [x]) →
  (∀ a, marks f xs (k a)) → marks f (x :: xs) (m ≫= k).
Proof.
  intros Hm Hk st. rewrite bind_eq. destruct (Hm st) as (cs1 & E1 & S1).
  destruct (m st) as [[a|e] st1]; cbn [snd] in E1.
  - destruct (Hk a st1) as (cs2 & E2 & Hpre & Hret). exists (cs1 ++ cs2).
    rewrite E2, E1, <- app_assoc, omap_app, S1. cbn [app]. split_and!; [done | |].
    + by apply prefix_cons.
    + intros b Hb. by rewrite (Hret b Hb).
  - exists cs1. cbn [fst snd]. rewrite S1. split_and!; [done | | done].
    apply prefix_cons, prefix_nil.
Qed.
End Marks.

(** Every repository method puts its own call on record, and no other. *)
Lemma calls_record_then {A} c (m : M A) st :
  keeps (appends (λ _, false)) m →
  calls ((record c ≫= λ _, m) st).2 = calls st ++ [c].
Proof.
  intros Hm. rewrite bind_eq. cbn [record].
  destruct (Hm (mkState (session st) (heap st) (calls st ++ [c]))) as (cs & E & Hcs).
  destruct cs; [| done]. by rewrite app_nil_r in E.
Qed.

Lemma create_address_calls data st :
  calls (create_address data st).2 = calls st ++ [create_address_call data].
Proof. apply calls_record_then. repeat keeps_step. Qed.

Lemma create_company_calls data st :
  calls (create_company data st).2 = calls st ++ [create_company_call data].
Proof. apply calls_record_then. repeat keeps_step. Qed.

Lemma create_credit_card_calls data st :
  calls (create_credit_card data st).2 = calls st ++ [create_credit_card_call data].
Proof. apply calls_record_then. repeat keeps_step. Qed.

Lemma flush_changes_calls st :
  calls (flush_changes st).2 = calls st ++ [flush_changes_call].
Proof. apply calls_record_then. keeps_step. Qed.

Ltac emit_step :=
  intros ?; eexists; split;
  [ first [ apply create_address_calls | apply create_company_calls
          | apply create_credit_card_calls | apply flush_changes_calls
          | apply create_user_calls ]
  | reflexivity ].

Ltac silent_tac :=
  unfold create_address, create_company, create_credit_card, flush_changes,
    create_user;
  repeat keeps_step;
  try (unfold User_init; repeat case_match; keeps_step).

Ltac marks_step IH :=
  first
    [ apply IH
    | apply marks_ret
    | apply marks_raise
    | apply marks_emit; [emit_step | intros ?]
    | apply marks_silent; [silent_tac | intros ?] ].

Lemma steps_create_loop new_users_data : ∀ cards created,
  marks step_of (turns (length new_users_data))
    (create_loop new_users_data cards created).
Proof.
  induction new_users_data as [|d rest IH]; intros cards created.
  - apply marks_ret.
  - destruct cards as [|c cards']; cbn [create_loop]; [apply marks_raise |].
    change (turns (length (d :: rest)))
      with (StageAddress :: StageCompany :: StageCard :: FlushAll :: StageUser
              :: turns (length rest)).
    repeat marks_step IH.
Qed.

Lemma targets_create_loop new_users_data : ∀ cards created,
  marks user_target new_users_data (create_loop new_users_data cards created).
Proof.
  induction new_users_data as [|d rest IH]; intros cards created.
  - apply marks_ret.
  - destruct cards as [|c cards']; cbn [create_loop]; [apply marks_raise |].
    repeat marks_step IH.
Qed.

Lemma cards_create_loop new_users_data : ∀ cards created,
  marks card_data_of (take (length new_users_data) cards)
    (create_loop new_users_data cards created).
Proof.
  induction new_users_data as [|d rest IH]; intros cards created.
  - apply marks_ret.
  - destruct cards as [|c cards']; cbn [create_loop]; [apply marks_raise |].
    cbn [length take]. repeat marks_step IH.
Qed.

Lemma omap_lookup_calls {X} (f : call → option X) h users_data :
  (∀ v, f (get_user_by_id_call v) = None) → omap f (lookup_calls h users_data) = [].
Proof.
  intros Hl. induction users_data as [|d rest IH]; [done |]. cbn. by rewrite Hl.
Qed.

(** From the loop to the pass: the calls before the loop are seen by
    none of the three views. *)
Lemma marks_sync_users {X} (f : call → option X) (xs : list X)
    users_data credit_card_client st :
  f get_users_call = None → (∀ v, f (get_user_by_id_call v) = None) →
  (∀ q, f (get_credit_cards_call q) = None) →
  (new_users (session st) (heap st) users_data = [] → xs = []) →
  (∀ created,
     marks f xs
       (create_loop (new_users (session st) (heap st) users_data)
          (credit_card_client
             (Z.of_nat (length (new_users (session st) (heap st) users_data))))
          created)) →
  omap f (calls_since st (sync_users users_data credit_card_client st).2)
    `prefix_of` xs ∧
  (∀ created, (sync_users users_data credit_card_client st).1 = Return created →
     omap f (calls_since st (sync_users users_data credit_card_client st).2) = xs).
Proof.
  intros Hu Hl Hq Hnil Hloop. rewrite sync_users_eq. cbv zeta.
  pose proof (omap_lookup_calls f (heap st) users_data Hl) as Hlook.
  case_bool_decide as Hnu.
  - cbn [fst snd]. rewrite calls_since_after_diff, (Hnil Hnu). cbn.
    rewrite Hu, Hlook. done.
  - assert (Hbatch : omap f (calls_since st (after_batch users_data st)) = []).
    { rewrite calls_since_after_batch. cbn. rewrite Hu, omap_app, Hlook. cbn.
      by rewrite Hq. }
    case_bool_decide; cbn [fst snd].
    + rewrite Hbatch. split; [apply prefix_nil | done].
    + destruct (Hloop [] (after_batch users_data st)) as (cs & E & Hpre & Hret).
      assert (Hsince : calls_since st
                (create_loop (new_users (session st) (heap st) users_data)
                   (credit_card_client
                      (Z.of_nat (length (new_users (session st) (heap st) users_data))))
                   [] (after_batch users_data st)).2
              = calls_since st (after_batch users_data st) ++ cs).
      { unfold calls_since. rewrite E. apply drop_app_le.
        cbn [after_batch calls]. rewrite length_app. lia. }
      rewrite Hsince, omap_app, Hbatch. done.
Qed.

(** X8 — the order of the repository calls.  The calls a pass makes on
    the repository to stage and flush are, in every outcome, a prefix of
    [len(new_users)] turns of: create_address, create_company,
    create_credit_card, flush_changes, create_user; when the pass
    returns they are exactly these turns.  So the three rows a user
    refers to are always flushed before the user is created, and a
    pass that raises stops inside this sequence. *)
Theorem sync_users_call_order users_data credit_card_client st :
  omap step_of (calls_since st (sync_users users_data credit_card_client st).2)
    `prefix_of` turns (length (new_users (session st) (heap st) users_data)) ∧
  (∀ created, (sync_users users_data credit_card_client st).1 = Return created →
     omap step_of (calls_since st (sync_users users_data credit_card_client st).2)
     = turns (length (new_users (session st) (heap st) users_data))).
Proof.
  apply marks_sync_users; try done.
  - by intros ->.
  - intros created. apply steps_create_loop.
Qed.

(** X9 — [create_user] is called on new records only, in fetch order.
    The records a pass hands to [create_user] are, in every outcome, a
    prefix of the list of new records; when the pass returns they are
    that list.  A record that is not new (its
    user is stored already) is never changed by the pass. *)
Theorem sync_users_targets users_data credit_card_client st :
  omap user_target (calls_since st (sync_users users_data credit_card_client st).2)
    `prefix_of` new_users (session st) (heap st) users_data ∧
  (∀ created, (sync_users users_data credit_card_client st).1 = Return created →
     omap user_target (calls_since st (sync_users users_data credit_card_client st).2)
     = new_users (session st) (heap st) users_data) ∧
  (∀ d, d ∉ new_users (session st) (heap st) users_data →
        heap (sync_users users_data credit_card_client st).2 !! d = heap st !! d).
Proof.
  destruct (marks_sync_users user_target
              (new_users (session st) (heap st) users_data)
              users_data credit_card_client st) as [Hpre Hret]; try done.
  { intros created. apply targets_create_loop. }
  split_and!; [done | done |]. intros d Hd.
  destruct (pops_sync_users users_data credit_card_client st) as (cs & Hcs & Hheap).
  rewrite (calls_since_app _ _ _ Hcs) in Hpre.
  rewrite Hheap, strip_at_lookup, bool_decide_eq_false_2; [done |].
  intros Hin. apply Hd. destruct Hpre as [rest ->]. apply elem_of_app. by left.
Qed.

(** X10 — the cards are used in the order received, the surplus never.
    The records a pass hands to [create_credit_card] are, in every
    outcome, a prefix of the first [len(new_users)] records the
    auxiliary client returned, and exactly those when the pass returns. *)
Theorem sync_users_cards_in_order users_data credit_card_client st :
  omap card_data_of (calls_since st (sync_users users_data credit_card_client st).2)
    `prefix_of`
    take (length (new_users (session st) (heap st) users_data))
      (credit_card_client
         (Z.of_nat (length (new_users (session st) (heap st) users_data)))) ∧
  (∀ created, (sync_users users_data credit_card_client st).1 = Return created →
     omap card_data_of
       (calls_since st (sync_users users_data credit_card_client st).2)
     = take (length (new_users (session st) (heap st) users_data))
         (credit_card_client
            (Z.of_nat (length (new_users (session st) (heap st) users_data))))).
Proof.
  apply marks_sync_users; try done.
  - by intros ->.
  - intros created. apply cards_create_loop.
Qed.

(* ================================================================== *)
(** ** The repository, method by method *)
(* ================================================================== *)

Ltac missing_key E :=
  right; eexists; split;
  [ reflexivity
  | left; eexists _, _; split_and!;
    [ reflexivity | exact E | unfold address_keys, company_keys, card_keys; set_solver
    | reflexivity ] ].

Ltac not_a_dict :=
  right; rewrite bind_eq; cbn [subscript raise]; eexists; split;
  [ reflexivity | right; split; [intros ?; discriminate | eauto] ].

(** X1 — [create_address], completely.  It returns exactly when the
    record is a dictionary with street, suite, city, zipcode and a [geo]
    dictionary with lat and lng; it has then staged one Address, without
    key, that holds the four values and, flattened into [geo_lat] and
    [geo_lng], the two of [geo], and has touched no other table and no
    record.  In every other case it raises [KeyError] or [TypeError]
    and stages nothing. *)
Theorem create_address_spec data st :
  (∃ d g street suite city zipcode lat lng,
     data = PDict d ∧
     d !! "street" = Some street ∧ d !! "suite" = Some suite ∧
     d !! "city" = Some city ∧ d !! "zipcode" = Some zipcode ∧
     d !! "geo" = Some (PDict g) ∧ g !! "lat" = Some lat ∧ g !! "lng" = Some lng ∧
     create_address data st
     = (Return (length (addresses (session st))),
        mkState
          (mkSession
             (addresses (session st)
                ++ [(Pending, Address.mk PNone street suite city zipcode lat lng)])
             (companies (session st)) (credit_cards (session st))
             (users (session st)))
          (heap st) (calls st ++ [create_address_call data]))) ∨
  (∃ e,
     create_address data st
     = (Raise e, mkState (session st) (heap st)
                   (calls st ++ [create_address_call data])) ∧
     ((∃ d k, data = PDict d ∧ d !! k = None ∧ k ∈ address_keys ∧ e = KeyError k) ∨
      ((∀ d, data ≠ PDict d) ∧ ∃ msg, e = TypeError msg) ∨
      (∃ d g k, data = PDict d ∧ d !! "geo" = Some (PDict g) ∧ g !! k = None ∧
                k ∈ geo_keys ∧ e = KeyError k) ∨
      (∃ d v, data = PDict d ∧ d !! "geo" = Some v ∧ (∀ g, v ≠ PDict g) ∧
              ∃ msg, e = TypeError msg))).
Proof.
  unfold create_address. rewrite bind_eq. cbn [record].
  destruct data as [| | | | |d];
    try (right; rewrite bind_eq; cbn [subscript raise]; eexists; split;
         [reflexivity | right; left; split; [intros ?; discriminate | eauto]]; fail).
  destruct (d !! "street") as [street|] eqn:E1; subscript_step E1; [| missing_key E1].
  destruct (d !! "suite") as [suite|] eqn:E2; subscript_step E2; [| missing_key E2].
  destruct (d !! "city") as [city|] eqn:E3; subscript_step E3; [| missing_key E3].
  destruct (d !! "zipcode") as [zipcode|] eqn:E4; subscript_step E4;
    [| missing_key E4].
  destruct (d !! "geo") as [geo|] eqn:E5; subscript_step E5; [| missing_key E5].
  destruct geo as [| | | | |g];
    try (right; rewrite bind_eq; cbn [subscript raise]; eexists; split;
         [reflexivity
         | do 3 right; eexists _, _; split_and!;
           [reflexivity | exact E5 | intros ?; discriminate | eauto]]; fail).
  destruct (g !! "lat") as [lat|] eqn:E6; subscript_step E6;
    [| right; eexists; split;
       [reflexivity
       | do 2 right; left; eexists _, _, _; split_and!;
         [reflexivity | exact E5 | exact E6 | unfold geo_keys; set_solver
         | reflexivity]]].
  subscript_step E5.
  destruct (g !! "lng") as [lng|] eqn:E7; subscript_step E7;
    [| right; eexists; split;
       [reflexivity
       | do 2 right; left; eexists _, _, _; split_and!;
         [reflexivity | exact E5 | exact E7 | unfold geo_keys; set_solver
         | reflexivity]]].
  left. exists d, g, street, suite, city, zipcode, lat, lng. split_and!; done.
Qed.

(** X2 — [create_company], completely.  It returns exactly when the
    record is a dictionary with name, catchPhrase and bs; it has then
    staged one Company, without key, that holds the three values
    ([catchPhrase] as [catch_phrase]), and has touched nothing else.  In
    every other case it stages nothing and raises: the [KeyError] of a
    missing entry, or [TypeError] when the record is no dictionary. *)
Theorem create_company_spec data st :
  (∃ d name catch_phrase bs,
     data = PDict d ∧
     d !! "name" = Some name ∧ d !! "catchPhrase" = Some catch_phrase ∧
     d !! "bs" = Some bs ∧
     create_company data st
     = (Return (length (companies (session st))),
        mkState
          (mkSession (addresses (session st))
             (companies (session st)
                ++ [(Pending, Company.mk PNone name catch_phrase bs)])
             (credit_cards (session st)) (users (session st)))
          (heap st) (calls st ++ [create_company_call data]))) ∨
  (∃ e,
     create_company data st
     = (Raise e, mkState (session st) (heap st)
                   (calls st ++ [create_company_call data])) ∧
     ((∃ d k, data = PDict d ∧ d !! k = None ∧ k ∈ company_keys ∧ e = KeyError k) ∨
      ((∀ d, data ≠ PDict d) ∧ ∃ msg, e = TypeError msg))).
Proof.
  unfold create_company. rewrite bind_eq. cbn [record].
  destruct data as [| | | | |d];
    try (not_a_dict; fail).
  destruct (d !! "name") as [name|] eqn:E1; subscript_step E1; [| missing_key E1].
  destruct (d !! "catchPhrase") as [cp|] eqn:E2; subscript_step E2; [| missing_key E2].
  destruct (d !! "bs") as [bs|] eqn:E3; subscript_step E3; [| missing_key E3].
  left. exists d, name, cp, bs. split_and!; done.
Qed.

(** X3 — [create_credit_card], completely.  It returns exactly when the
    record is a dictionary with type, number, expiration and owner; it
    has then staged one CreditCard, without key, that holds the four
    values, and has touched nothing else.  In every other case it
    stages nothing and raises: the [KeyError] of a missing entry, or
    [TypeError] when the record is no dictionary. *)
Theorem create_credit_card_spec data st :
  (∃ d type number expiration owner,
     data = PDict d ∧
     d !! "type" = Some type ∧ d !! "number" = Some number ∧
     d !! "expiration" = Some expiration ∧ d !! "owner" = Some owner ∧
     create_credit_card data st
     = (Return (length (credit_cards (session st))),
        mkState
          (mkSession (addresses (session st)) (companies (session st))
             (credit_cards (session st)
                ++ [(Pending, CreditCard.mk PNone type number expiration owner)])
             (users (session st)))
          (heap st) (calls st ++ [create_credit_card_call data]))) ∨
  (∃ e,
     create_credit_card data st
     = (Raise e, mkState (session st) (heap st)
                   (calls st ++ [create_credit_card_call data])) ∧
     ((∃ d k, data = PDict d ∧ d !! k = None ∧ k ∈ card_keys ∧ e = KeyError k) ∨
      ((∀ d, data ≠ PDict d) ∧ ∃ msg, e = TypeError msg))).
Proof.
  unfold create_credit_card. rewrite bind_eq. cbn [record].
  destruct data as [| | | | |d];
    try (not_a_dict; fail).
  destruct (d !! "type") as [type|] eqn:E1; subscript_step E1; [| missing_key E1].
  destruct (d !! "number") as [number|] eqn:E2; subscript_step E2; [| missing_key E2].
  destruct (d !! "expiration") as [ex|] eqn:E3; subscript_step E3; [| missing_key E3].
  destruct (d !! "owner") as [owner|] eqn:E4; subscript_step E4; [| missing_key E4].
  left. exists d, type, number, ex, owner. split_and!; done.
Qed.

Lemma flush_rows_snoc_key {T} `{Entity T} (old : list (instance_state * T)) :
  ∀ ids x z rows',
    flush_rows ids (old ++ [(Pending, x)]) = Return rows' →
    get_id x = PInt z →
    table_ids old ⊆ ids →
    ∃ old', rows' = old' ++ [(Persistent, x)] ∧ length old' = length old ∧
            (z ∉ table_ids old') ∧ (z ∉ ids).
Proof.
  induction old as [|[[] y] rest IH]; intros ids x z rows'; cbn [app flush_rows].
  - destruct (negb (not_null x)); [done |]. intros Hf Hx _. rewrite Hx in Hf.
    case_bool_decide as Hin; [done |]. injection Hf as <-. exists [].
    split_and!; [done | done | set_solver | done].
  - destruct (negb (not_null y)); [done |]. rewrite table_ids_cons. cbn [row_id].
    destruct (get_id y) eqn:Hid; try done.
    + destruct (flush_rows _ (rest ++ _)) eqn:E; [| done]. intros [= <-] Hx Hsub.
      destruct (IH _ _ _ _ E Hx) as (old' & -> & Hlen & Hz & Hids); [set_solver |].
      exists ((Persistent, set_id (PInt (next_id ids)) y) :: old').
      split_and!; [done | simpl; by rewrite Hlen | | set_solver].
      rewrite table_ids_cons. cbn [row_id]. rewrite get_set_id. set_solver.
    + case_bool_decide as Hin; [done |].
      destruct (flush_rows _ (rest ++ _)) eqn:E; [| done]. intros [= <-] Hx Hsub.
      destruct (IH _ _ _ _ E Hx) as (old' & -> & Hlen & Hz & Hids); [set_solver |].
      exists ((Persistent, y) :: old').
      split_and!; [done | simpl; by rewrite Hlen | | set_solver].
      rewrite table_ids_cons. cbn [row_id]. rewrite Hid. set_solver.
  - destruct (flush_rows ids (rest ++ _)) eqn:E; [| done]. intros [= <-] Hx.
    rewrite table_ids_cons. intros Hsub.
    assert (Hsub' : table_ids rest ⊆ ids).
    { destruct (row_id (Persistent, y)); set_solver. }
    destruct (IH _ _ _ _ E Hx Hsub') as (old' & -> & Hlen & Hz & Hids).
    exists ((Persistent, y) :: old').
    split_and!; [done | simpl; by rewrite Hlen | | done].
    rewrite table_ids_cons.
    destruct (row_id (Persistent, y)) as [w|] eqn:Hw; [| done]. set_solver.
Qed.

Lemma User_init_links dict a c cc st u st' :
  User_init dict a c cc st = (Return u, st') →
  User.address_id u = a ∧ User.company_id u = c.
Proof. unfold User_init. repeat case_match; try done. by intros [= <- <-]. Qed.

Lemma create_user_Return_links d a c cc st h st' :
  create_user d a c cc st = (Return h, st') →
  ∃ u, session st' = (add_user u (session st)).1 ∧
       User.address_id u = a ∧ User.company_id u = c.
Proof.
  rewrite create_user_eq. intros H.
  apply bind_Return in H as (u & st1 & Hinit & H).
  pose proof (User_init_links _ _ _ _ _ _ _ Hinit) as [Ha Hc].
  apply User_init_Return in Hinit as (-> & _).
  injection H as <- <-. eauto.
Qed.

(** X4 — a user that is created and flushed is found by its id.  When
    [create_user] returns for a record with the integer id [z] and the
    next [flush_changes] returns, [get_user_by_id(z)] returns that very
    user: the object [create_user] returned, now inserted, with the
    columns of the record and the three keys it was given. *)
Theorem create_user_then_lookup d address_id company_id credit_card_id st user st1 st2 z :
  create_user d address_id company_id credit_card_id st = (Return user, st1) →
  flush_changes st1 = (Return tt, st2) →
  dict_get (deref (heap st) d) "id" = PInt z →
  ∃ u,
    get_user_by_id (PInt z) st2
    = (Return (Some u),
       mkState (session st2) (heap st2) (calls st2 ++ [get_user_by_id_call (PInt z)])) ∧
    users (session st2) !! user = Some (Persistent, u) ∧
    User.id u = PInt z ∧
    user_from (deref (heap st) d) u ∧
    User.address_id u = address_id ∧
    User.company_id u = company_id ∧
    User.credit_card_id u = credit_card_id.
Proof.
  intros Hcreate Hflush Hz.
  destruct (create_user_Return_links _ _ _ _ _ _ _ Hcreate) as (u' & Su' & Ha & Hc).
  apply create_user_Return in Hcreate as (u & -> & Hfrom & Hcc & Su & _).
  assert (u' = u) as ->.
  { rewrite Su in Su'. cbn [add_user fst] in Su'. injection Su' as E.
    apply app_inv_head in E. by injection E. }
  assert (Hid : User.id u = PInt z).
  { destruct Hfrom as [[Hid | Hid] _]; congruence. }
  apply flush_changes_Return in Hflush as [Hflush _].
  apply Session_flush_Return in Hflush as (_ & _ & _ & Hu).
  rewrite Su in Hu. cbn [add_user users fst] in Hu.
  destruct (flush_rows_snoc_key _ _ _ _ _ Hu Hid) as (old' & E & Hlen & Hfresh & _).
  { rewrite table_ids_app. set_solver. }
  assert (Hfind : find_by_id z (users (session st2)) = Some (Persistent, u)).
  { rewrite E, find_by_id_app_r by (by apply find_by_id_None).
    unfold find_by_id. cbn [find row_id get_id User_entity]. rewrite Hid.
    by rewrite bool_decide_eq_true_2. }
  exists u. split_and!; try done.
  - unfold get_user_by_id. rewrite bind_eq. unfold record, read_session.
    cbn [session query_user_first]. by rewrite Hfind.
  - rewrite E, <- Hlen. by apply list_lookup_middle.
Qed.

Lemma create_user_then_lookup_witness :
  ∃ u,
    (get_user_by_id (PInt 101)
       (flush_changes (create_user 0 (PInt 1) (PInt 1) (PInt 1) fresh_state).2).2).1
    = Return (Some u) ∧
    User.name u = PStr "Test User" ∧ User.credit_card_id u = PInt 1.
Proof.
  destruct (create_user 0 (PInt 1) (PInt 1) (PInt 1) fresh_state) as [r1 st1] eqn:E1.
  assert (r1 = Return 0) as ->.
  { change r1 with (r1, st1).1. rewrite <- E1. vm_compute. reflexivity. }
  cbn [snd].
  destruct (flush_changes st1) as [r2 st2] eqn:E2.
  assert (r2 = Return tt) as ->.
  { change r2 with (r2, st2).1. rewrite <- E2.
    replace st1 with (create_user 0 (PInt 1) (PInt 1) (PInt 1) fresh_state).2
      by (by rewrite E1).
    vm_compute. reflexivity. }
  cbn [snd].
  assert (Hz : dict_get (deref (heap fresh_state) 0) "id" = PInt 101)
    by (vm_compute; reflexivity).
  destruct (create_user_then_lookup _ _ _ _ _ _ _ _ _ E1 E2 Hz)
    as (u & Hget & _ & _ & Hfrom & _ & _ & Hcc).
  exists u. rewrite Hget. split_and!; [done | | done].
  destruct Hfrom as (_ & -> & _). vm_compute. reflexivity.
Defined.

(** *** What a pass does to the tables, whatever its outcome *)

Lemma on_session_sync_users (Rs : Session → Session → Prop) `{!PreOrder Rs}
    users_data client :
  (∀ a s, Rs s (add_address a s).1) →
  (∀ c s, Rs s (add_company c s).1) →
  (∀ c s, Rs s (add_credit_card c s).1) →
  (∀ u s, Rs s (add_user u s).1) →
  (∀ s s', Session_flush s = Return s' → Rs s s') →
  keeps (on_session Rs) (sync_users users_data client).
Proof.
  intros Ha Hc Hcc Hu Hf st. rewrite sync_users_eq. cbv zeta.
  repeat case_bool_decide; cbn [snd]; unfold on_session; try reflexivity.
  exact (on_session_create_loop Rs Ha Hc Hcc Hu Hf _ _ _ (after_batch users_data st)).
Qed.

Lemma rows_kept_refl {T} (rows : list (instance_state * T)) : rows_kept rows rows.
Proof. by intros i x. Qed.

Lemma rows_kept_trans {T} (r1 r2 r3 : list (instance_state * T)) :
  rows_kept r1 r2 → rows_kept r2 r3 → rows_kept r1 r3.
Proof. intros H1 H2 i x Hi. eauto. Qed.

Lemma rows_kept_snoc {T} (rows : list (instance_state * T)) r :
  rows_kept rows (rows ++ [r]).
Proof. intros i x Hi. by apply lookup_app_l_Some. Qed.

Lemma rows_kept_flush {T} `{Entity T} (rows rows' : list (instance_state * T)) :
  flush_table rows = Return rows' → rows_kept rows rows'.
Proof.
  intros Hf i x Hi.
  destruct (flush_rows_lookup _ _ _ _ _ _ Hf Hi) as (x' & Hx' & [-> | (? & _)]);
    [done | discriminate].
Qed.

#[global] Instance append_only_preorder : PreOrder append_only.
Proof.
  split.
  - intros s. repeat split; apply rows_kept_refl.
  - intros s1 s2 s3 (? & ? & ? & ?) (? & ? & ? & ?).
    repeat split; by eapply rows_kept_trans.
Qed.

Lemma append_only_flush s s' : Session_flush s = Return s' → append_only s s'.
Proof.
  intros (? & ? & ? & ?)%Session_flush_Return.
  repeat split; by apply rows_kept_flush.
Qed.

(** X6 — a pass only adds rows.  Whatever the clients answer and however
    the pass ends, every row that was inserted before it is still there
    afterwards, in its place and unchanged, in each of the four tables;
    and so it is after the caller's commit. *)
Theorem sync_users_append_only users_data client st :
  let st' := (sync_users users_data client st).2 in
  append_only (session st) (session st') ∧
  ∀ committed, Session_flush (session st') = Return committed →
               append_only (session st) committed.
Proof.
  assert (H : append_only (session st) (session (sync_users users_data client st).2)).
  { apply (on_session_sync_users append_only);
      [intros a s | intros a s | intros a s | intros a s | apply append_only_flush];
      repeat split; first [apply rows_kept_snoc | apply rows_kept_refl]. }
  split; [done |]. intros committed Hc.
  etransitivity; [exact H | by apply append_only_flush].
Qed.

Lemma flush_rows_NoDup {T} `{Entity T} (rows : list (instance_state * T)) :
  ∀ ids rows',
    flush_rows ids rows = Return rows' →
    NoDup (table_ids rows) →
    table_ids rows ⊆ ids →
    NoDup (table_ids rows') ∧
    (∀ z, z ∈ table_ids rows' → z ∈ table_ids rows ∨ z ∉ ids).
Proof.
  induction rows as [|[[] y] rest IH]; intros ids rows'; cbn [flush_rows].
  - intros [= <-]. split; [constructor | set_solver].
  - destruct (negb (not_null y)); [done |]. rewrite table_ids_cons. cbn [row_id].
    destruct (get_id y) eqn:Hid; try done.
    + destruct (flush_rows _ rest) eqn:E; [| done]. intros [= <-] Hnd Hsub.
      destruct (IH _ _ E Hnd) as [Hnd' Hnew]; [set_solver |].
      rewrite table_ids_cons. cbn [row_id]. rewrite get_set_id.
      pose proof (next_id_fresh ids) as Hfresh.
      split.
      * apply NoDup_cons. split; [| done]. intros Hin.
        destruct (Hnew _ Hin) as [Hold | Hout]; set_solver.
      * intros z [-> | Hin]%elem_of_cons; [by right |].
        destruct (Hnew _ Hin) as [Hold | Hout]; set_solver.
    + case_bool_decide as Hused; [done |].
      destruct (flush_rows _ rest) eqn:E; [| done]. intros [= <-] Hnd Hsub.
      destruct (IH _ _ E Hnd) as [Hnd' Hnew]; [set_solver |].
      rewrite table_ids_cons. cbn [row_id]. rewrite Hid.
      split.
      * apply NoDup_cons. split; [| done]. intros Hin.
        destruct (Hnew _ Hin) as [Hold | Hout]; set_solver.
      * intros w [-> | Hin]%elem_of_cons; [by right |].
        destruct (Hnew _ Hin) as [Hold | Hout]; set_solver.
  - destruct (flush_rows ids rest) eqn:E; [| done]. intros [= <-].
    rewrite !table_ids_cons.
    destruct (row_id (Persistent, y)) as [w|] eqn:Hw; cbn [app]; intros Hnd Hsub.
    + apply NoDup_cons in Hnd as [Hw' Hnd].
      destruct (IH _ _ E Hnd) as [Hnd' Hnew]; [set_solver |].
      split.
      * apply NoDup_cons. split; [| done]. intros Hin.
        destruct (Hnew _ Hin) as [Hold | Hout]; set_solver.
      * intros z [-> | Hin]%elem_of_cons; [left; set_solver |].
        destruct (Hnew _ Hin) as [Hold | Hout]; set_solver.
    + by apply IH.
Qed.

Lemma flush_table_NoDup {T} `{Entity T} (rows rows' : list (instance_state * T)) :
  flush_table rows = Return rows' →
  NoDup (table_ids rows) → NoDup (table_ids rows').
Proof. intros Hf Hnd. by apply (flush_rows_NoDup _ _ _ Hf). Qed.

#[global] Instance keys_unique_kept_preorder : PreOrder keys_unique_kept.
Proof. split; unfold keys_unique_kept; [intros s; auto | intros s1 s2 s3; auto]. Qed.

Lemma keys_unique_flush s s' : Session_flush s = Return s' → keys_unique_kept s s'.
Proof.
  intros (? & ? & ? & ?)%Session_flush_Return (? & ? & ? & ?).
  repeat split; by eapply flush_table_NoDup.
Qed.

(** X7 — no key is ever stored twice.  If no two rows of a table share
    their key before a pass, then none do after it, whatever the clients
    answer (a directory that lists the same id twice included) and
    however the pass ends; nor after the caller's commit, when that
    succeeds. *)
Theorem sync_users_keys_unique users_data client st :
  keys_unique (session st) →
  let st' := (sync_users users_data client st).2 in
  keys_unique (session st') ∧
  ∀ committed, Session_flush (session st') = Return committed → keys_unique committed.
Proof.
  intros Hst.
  assert (H : keys_unique (session (sync_users users_data client st).2)).
  { revert Hst. apply (on_session_sync_users keys_unique_kept);
      [intros a s | intros a s | intros a s | intros a s | apply keys_unique_flush];
      intros (? & ? & ? & ?); repeat split; cbn [add_address add_company
        add_credit_card add_user fst addresses companies credit_cards users];
      by rewrite ?table_ids_snoc_pending. }
  split; [done |]. intros committed Hc. by apply (keys_unique_flush _ _ Hc).
Qed.

Lemma sync_users_keys_unique_witness :
  keys_unique (session state_with_101) ∧
  keys_unique (session (sync_users [0; 1; 2] three_cards state_with_101).2).
Proof.
  assert (H0 : keys_unique (session state_with_101)).
  { repeat split; vm_compute; apply NoDup_singleton. }
  split; [exact H0 |].
  exact (proj1 (sync_users_keys_unique [0; 1; 2] three_cards state_with_101 H0)).
Defined.

(* ------------------------------------------------------------------ *)
(** *** The address and the company of a created user *)

Lemma subscript_ref_Return_value d k x st st' :
  subscript_ref d k st = (Return x, st') →
  st' = st ∧ deref (heap st) d !! k = Some x.
Proof.
  unfold subscript_ref. rewrite bind_eq. cbn [read_dict].
  intros (-> & dict & [= <-] & Hk)%subscript_Return. done.
Qed.

Lemma create_address_Return_from data st h st' :
  create_address data st = (Return h, st') →
  ∃ a, h = length (addresses (session st)) ∧
       Address.id a = PNone ∧ address_from data a ∧
       session st' = (add_address a (session st)).1 ∧
       heap st' = heap st.
Proof.
  unfold create_address. intros H. invert_bind H.
  injection Hstep as <- <-.
  do 8 invert_subscript H.
  injection H as <- <-.
  eexists (Address.mk PNone _ _ _ _ _ _). split_and!; try done.
  subst data. simplify_eq. eexists _, _. split_and!; [done | done..].
Qed.

Lemma create_company_Return_from data st h st' :
  create_company data st = (Return h, st') →
  ∃ co, h = length (companies (session st)) ∧
        Company.id co = PNone ∧ company_from data co ∧
        session st' = (add_company co (session st)).1 ∧
        heap st' = heap st.
Proof.
  unfold create_company. intros H. invert_bind H.
  injection Hstep as <- <-.
  do 3 invert_subscript H.
  injection H as <- <-.
  eexists (Company.mk PNone _ _ _). split_and!; try done.
  subst data. simplify_eq. eexists. split_and!; [done | done..].
Qed.

Lemma address_from_flushed data a z :
  address_from data a → address_from data (set_id (PInt z) a).
Proof. by destruct a. Qed.

Lemma company_from_flushed data co z :
  company_from data co → company_from data (set_id (PInt z) co).
Proof. by destruct co. Qed.

Lemma housed_flush s s' : Session_flush s = Return s' → housed_kept s s'.
Proof.
  intros (Ha & Hc & _ & Hu)%Session_flush_Return dict user
         (ust & u & za & zc & a & co & ad & cd & Hlook & Hla & Hfa & Had & Hfrom
            & Hlc & Hfc & Hcd & Hcfrom).
  destruct (flush_rows_lookup _ _ _ _ _ _ Hu Hlook) as (u' & Hlook' & Hu').
  exists Persistent, u', za, zc, a, co, ad, cd. split_and!; try done.
  - by destruct Hu' as [-> | (_ & Hid & z' & ->)].
  - by eapply flush_table_find.
  - by destruct Hu' as [-> | (_ & Hid & z' & ->)].
  - by eapply flush_table_find.
Qed.

#[global] Instance housed_kept_preorder : PreOrder housed_kept.
Proof. split; unfold housed_kept; [intros s; auto | intros s1 s2 s3; auto]. Qed.

Lemma housed_create_loop new_users_data cards created :
  keeps (on_session housed_kept) (create_loop new_users_data cards created).
Proof.
  apply on_session_create_loop; [typeclasses eauto | ..]; try apply housed_flush;
    intros x s dict user
      (ust & u & za & zc & a & co & ad & cd & Hlook & Hla & Hfa & Had & Hfrom
         & Hlc & Hfc & Hcd & Hcfrom);
    exists ust, u, za, zc, a, co, ad, cd; split_and!; try done;
    cbn [add_address add_company add_user fst addresses companies users];
    first [by apply find_by_id_app_l | by apply lookup_app_l_Some].
Qed.

Lemma housed_strip s dict user : housed s (strip dict) user → housed s dict user.
Proof.
  intros (ust & u & za & zc & a & co & ad & cd & _ & _ & _ & Had & _).
  rewrite strip_lookup in Had. by rewrite bool_decide_eq_true_2 in Had by set_solver.
Qed.

(** One turn of the loop, on the session: the user added last refers to
    the address and the company the turn has inserted. *)
Lemma iteration_housed s0 a co card s4 u dict address_data company_data :
  Session_flush
    (add_credit_card card (add_company co (add_address a s0).1).1).1 = Return s4 →
  Address.id a = PNone → address_from address_data a →
  Company.id co = PNone → company_from company_data co →
  dict !! "address" = Some address_data →
  dict !! "company" = Some company_data →
  User.address_id u = id_of (addresses s4) (length (addresses s0)) →
  User.company_id u = id_of (companies s4) (length (companies s0)) →
  housed (add_user u s4).1 dict (length (users s0)).
Proof.
  intros Hflush Hida Hfa Hidc Hfc Had Hcd Hla Hlc.
  pose proof (Session_flush_lengths _ _ Hflush) as (_ & _ & _ & Lu).
  cbn [add_address add_company add_credit_card users fst] in Lu.
  apply Session_flush_Return in Hflush as (Ha & Hc & _ & _).
  cbn [add_address add_company add_credit_card addresses companies fst] in Ha, Hc.
  destruct (flush_table_snoc _ _ _ Ha Hida) as (za & Hza & Hfinda).
  destruct (flush_table_snoc _ _ _ Hc Hidc) as (zc & Hzc & Hfindc).
  exists Pending, u, za, zc, (set_id (PInt za) a), (set_id (PInt zc) co),
         address_data, company_data.
  split_and!; try done;
    first [ by rewrite Hla | by rewrite Hlc | by apply address_from_flushed
          | by apply company_from_flushed
          | cbn [add_user users fst]; rewrite <- Lu; by apply list_lookup_middle ].
Qed.

Lemma create_loop_Return_housed new_users_data : ∀ cards created st res st',
  create_loop new_users_data cards created st = (Return res, st') →
  ∀ i d, new_users_data !! i = Some d →
         housed (session st') (deref (heap st) d) (length (users (session st)) + i).
Proof.
  induction new_users_data as [|d rest IH]; intros cards created st res st' H;
    [done |].
  destruct cards as [|c cards']; cbn [create_loop] in H; [done |].
  apply bind_Return in H as (address_data & s_a & Hstep & H).
  apply subscript_ref_Return_value in Hstep as (-> & Had).
  apply bind_Return in H as (address & st_a & Hstep & H).
  apply create_address_Return_from in Hstep as (adr & -> & Hida & Hfa & Sa & Ha).
  apply bind_Return in H as (company_data & s_c & Hstep & H).
  apply subscript_ref_Return_value in Hstep as (-> & Hcd).
  apply bind_Return in H as (company & st_c & Hstep & H).
  apply create_company_Return_from in Hstep as (co & -> & Hidc & Hfc & Sc & Hc).
  apply bind_Return in H as (credit_card & st_cc & Hstep & H).
  apply create_credit_card_Return in Hstep as (card & -> & _ & _ & Scc & Hcc).
  apply bind_Return in H as (? & st_f & Hstep & H).
  apply flush_changes_Return in Hstep as (Hflush & Hf).
  apply bind_Return in H as (address_id & ? & [= <- <-] & H).
  apply bind_Return in H as (company_id & ? & [= <- <-] & H).
  apply bind_Return in H as (credit_card_id & ? & [= <- <-] & H).
  apply bind_Return in H as (user & st_u & Hstep & H).
  pose proof (create_user_Return_links _ _ _ _ _ _ _ Hstep) as (u & Su & Hla & Hlc).
  apply create_user_Return in Hstep as (u' & -> & _ & _ & _ & Hu).
  rewrite Scc, Sc, Sa in Hflush.
  assert (Hheap : heap st_f = heap st) by congruence.
  rewrite Ha in Hcd.
  assert (Hlen : length (companies (session st_a)) = length (companies (session st))).
  { by rewrite Sa. }
  rewrite Hlen in Hlc.
  pose proof (iteration_housed _ _ _ _ _ _ _ _ _ Hflush Hida Hfa Hidc Hfc Had Hcd
                Hla Hlc) as Hhoused.
  rewrite <- Su in Hhoused.
  pose proof (Session_flush_lengths _ _ Hflush) as (_ & _ & _ & Lu).
  cbn [add_address add_company add_credit_card users fst] in Lu.
  assert (Hkeep : on_session housed_kept st_u st').
  { exact (keeps_run _ _ _ _ _ (housed_create_loop _ _ _) H). }
  intros [|i] d' Hd'; cbn in Hd'.
  - injection Hd' as <-. rewrite Nat.add_0_r. by apply Hkeep.
  - pose proof (IH _ _ _ _ _ H i d' Hd') as Hp.
    rewrite Su in Hp. cbn [add_user users fst] in Hp.
    rewrite length_app, Lu in Hp. cbn [length] in Hp.
    replace (length (users (session st)) + S i)
      with (length (users (session st)) + 1 + i) by lia.
    rewrite Hu, Hheap in Hp.
    destruct (deref_alter_strip_cases d d' (heap st)) as [E | E];
      rewrite E in Hp; [done | by apply housed_strip].
Qed.

(** X5 — the address and the company of a created user.  In a pass that
    returns, the i-th returned user refers, by [address_id] and
    [company_id], to an inserted address row and an inserted company row
    that carry the entries of the nested address (with its [geo] as
    [geo_lat] and [geo_lng]) and of the nested company of the i-th new
    record, as the record was fetched; and so it is after the caller's
    commit. *)
Theorem sync_users_foreign_keys users_data credit_card_client st created st' :
  sync_users users_data credit_card_client st = (Return created, st') →
  ∀ i d,
    new_users (session st) (heap st) users_data !! i = Some d →
    ∃ user,
      created !! i = Some user ∧
      housed (session st') (deref (heap st) d) user ∧
      ∀ committed, Session_flush (session st') = Return committed →
                   housed committed (deref (heap st) d) user.
Proof.
  rewrite sync_users_eq. cbv zeta. case_bool_decide as Hnu.
  - intros _ i d Hd. by rewrite Hnu in Hd.
  - case_bool_decide as Hshort; [done |]. intros Hloop i d Hd.
    pose proof (create_loop_Return_housed _ _ _ _ _ _ Hloop i d Hd) as Hh.
    apply create_loop_Return in Hloop as (-> & _).
    cbn [after_batch session heap app] in *.
    exists (length (users (session st)) + i). split_and!; [| done |].
    + apply lookup_seq. split; [done |]. by eapply lookup_lt_Some.
    + intros committed Hc. by apply (housed_flush _ _ Hc).
Qed.

Lemma sync_users_foreign_keys_witness :
  ∃ st' user,
    sync_users [0; 1; 2] three_cards fresh_state = (Return [0; 1; 2], st') ∧
    housed (session st') (deref (heap fresh_state) 1) user.
Proof.
  destruct (sync_users [0; 1; 2] three_cards fresh_state) as [r st'] eqn:Hrun.
  assert (Hr : r = Return [0; 1; 2]).
  { change r with (r, st').1. rewrite <- Hrun. vm_compute. reflexivity. }
  subst r.
  assert (Hnu : new_users (session fresh_state) (heap fresh_state) [0; 1; 2]
                = [0; 1; 2]) by (vm_compute; reflexivity).
  assert (Hd : new_users (session fresh_state) (heap fresh_state) [0; 1; 2] !! 1
               = Some 1) by (by rewrite Hnu).
  destruct (sync_users_foreign_keys _ _ _ _ _ Hrun 1 1 Hd) as (user & _ & Hh & _).
  exists st', user. split; [reflexivity | exact Hh].
Defined.

(* ================================================================== *)
(** ** The periodic task *)
(* ================================================================== *)

Lemma flush_rows_all_persistent {T} `{Entity T} (rows : list (instance_state * T)) :
  ∀ ids rows', flush_rows ids rows = Return rows' → all_persistent rows'.
Proof.
  intros ids rows' Hf. apply Forall_lookup. intros i [ust x] Hi.
  pose proof (flush_rows_length _ _ _ Hf) as Hlen.
  destruct (rows !! i) as [[ust0 x0]|] eqn:E.
  - destruct (flush_rows_lookup _ _ _ _ _ _ Hf E) as (x' & Hx' & _).
    rewrite Hi in Hx'. by injection Hx' as -> _.
  - apply lookup_ge_None in E. apply lookup_lt_Some in Hi. lia.
Qed.

Lemma Session_flush_clean s s' : Session_flush s = Return s' → clean s'.
Proof.
  intros (? & ? & ? & ?)%Session_flush_Return.
  repeat split; by eapply flush_rows_all_persistent.
Qed.

Lemma Session_flush_of_clean s : clean s → Session_flush s = Return s.
Proof.
  intros (Pa & Pc & Pcc & Pu). unfold Session_flush, flush_table.
  rewrite !flush_rows_persistent by done. by destruct s.
Qed.

(** A pass that returns has added one row per new user to each table. *)
Lemma sync_users_Return_lengths users_data client st created st' :
  sync_users users_data client st = (Return created, st') →
  let K := length (new_users (session st) (heap st) users_data) in
  length created = K ∧
  length (addresses (session st')) = length (addresses (session st)) + K ∧
  length (companies (session st')) = length (companies (session st)) + K ∧
  length (credit_cards (session st')) = length (credit_cards (session st)) + K ∧
  length (users (session st')) = length (users (session st)) + K.
Proof.
  rewrite sync_users_eq. cbv zeta. case_bool_decide as Hnu.
  - intros [= <- <-]. rewrite Hnu. cbn [after_diff session length]. lia.
  - case_bool_decide as Hshort; [done |]. intros Hloop.
    apply create_loop_Return in Hloop as (-> & La & Lc & Lcc & Lu & _).
    cbn [after_batch session app] in *. rewrite length_seq. done.
Qed.

(** X11 — a run of the task is all or nothing.  Either it completes:
    then its message counts the new users of the directory answer, each
    of the four tables has grown by exactly that many rows, nothing is
    left staged, and no row of before has changed.  Or it asks for a
    retry, with a countdown of 60, and the database holds exactly the
    rows of before the run. *)
Theorem sync_users_task_all_or_nothing user_client credit_card_client st :
  let K := length (new_users (session st) (heap st) user_client) in
  match sync_users_task user_client credit_card_client st with
  | (Completed message, st') =>
      message = "Total new users processed: " +:+ pretty K ∧
      length (addresses (session st')) = length (addresses (session st)) + K ∧
      length (companies (session st')) = length (companies (session st)) + K ∧
      length (credit_cards (session st')) = length (credit_cards (session st)) + K ∧
      length (users (session st')) = length (users (session st)) + K ∧
      clean (session st') ∧
      append_only (session st) (session st')
  | (Retry exc countdown, st') =>
      countdown = 60%Z ∧ session st' = session st
  end.
Proof.
  intros K. unfold sync_users_task.
  pose proof (on_session_sync_users append_only user_client credit_card_client) as Hkeep.
  destruct (sync_users user_client credit_card_client st) as [[created | exc] st1] eqn:Hrun;
    [| done].
  destruct (Session_flush (session st1)) as [committed | exc] eqn:Hcommit; [| done].
  pose proof (sync_users_Return_lengths _ _ _ _ _ Hrun) as (Hlen & La & Lc & Lcc & Lu).
  pose proof (Session_flush_lengths _ _ Hcommit) as (La' & Lc' & Lcc' & Lu').
  cbn [session]. fold K in Hlen, La, Lc, Lcc, Lu.
  split_and!; try lia.
  - by rewrite Hlen.
  - by eapply Session_flush_clean.
  - etransitivity; [| by apply append_only_flush].
    assert (Hk : on_session append_only st (sync_users user_client credit_card_client st).2).
    { apply Hkeep; [intros a s | intros a s | intros a s | intros a s
                   | apply append_only_flush];
        repeat split; first [apply rows_kept_snoc | apply rows_kept_refl]. }
    by rewrite Hrun in Hk.
Qed.

(** On well-formed records and cards, from a ready session, the loop
    runs to its end, and leaves a session that can be committed. *)
Lemma create_loop_returns_ready new_users_data : ∀ ids cards created st,
  length new_users_data ≤ length cards →
  Forall (λ d, record_ok (deref (heap st) d) = true) new_users_data →
  record_id (heap st) <$> new_users_data = Some <$> ids →
  NoDup ids →
  Forall (λ c, card_ok c = true) (take (length new_users_data) cards) →
  ready (session st) ids →
  ∃ res st', create_loop new_users_data cards created st = (Return res, st') ∧
             ready (session st') [].
Proof.
  induction new_users_data as [|d rest IH];
    intros ids cards created st Hlen Hrecords Hids Hnodup Hcards Hready.
  - simpl. destruct ids; [| done]. eauto.
  - destruct cards as [|c cards']; [simpl in Hlen; lia |].
    destruct ids as [|z ids']; [done |].
    apply Forall_cons in Hrecords as [Hok Hrecords].
    cbn [fmap list_fmap] in Hids. injection Hids as Hz Hids.
    apply NoDup_cons in Hnodup as [Hfresh Hnodup].
    cbn [length take] in Hcards. apply Forall_cons in Hcards as [Hcard Hcards].
    destruct (record_ok_nested _ Hok) as (a & co & Ea & Haok & Ec & Hcok).
    cbn [create_loop].
    rewrite (bind_run _ _ _ _ _ (subscript_ref_returns d "address" a st Ea)).
    destruct (create_address_returns a st Haok) as (adr & Hadr & Ia & Na).
    rewrite (bind_run _ _ _ _ _ Hadr).
    erewrite bind_run; [| by apply subscript_ref_returns].
    destruct (create_company_returns co
                (mkState (add_address adr (session st)).1 (heap st)
                   (calls st ++ [create_address_call a])) Hcok)
      as (com & Hcom & Ic & Nc).
    rewrite (bind_run _ _ _ _ _ Hcom). cbn [session heap calls].
    destruct (create_credit_card_returns c
                (mkState (add_company com (add_address adr (session st)).1).1 (heap st)
                   ((calls st ++ [create_address_call a]) ++ [create_company_call co]))
                Hcard)
      as (card & Hcc & Icc & Ncc).
    rewrite (bind_run _ _ _ _ _ Hcc). cbn [session heap calls].
    destruct (flush_ready _ _ adr com card Hready Ia Na Ic Nc Icc Ncc)
      as (s4 & za & zc & zcc & Hflush & Hclean & Ha & Hc & Hcc' & Hfree).
    erewrite bind_run; [| by apply flush_changes_returns].
    do 3 (rewrite bind_eq;
          cbn [read_session session heap calls add_address add_company
               add_credit_card addresses companies credit_cards users fst]).
    rewrite Ha, Hc, Hcc'.
    match goal with
    | |- ∃ _ _, (create_user d ?x ?y ?w ≫= _) ?s = _ ∧ _ =>
        destruct (create_user_returns d x y w s Hok eq_refl eq_refl)
          as (u & z' & Hu & Nu & Iu & Hz')
    end.
    cbn [heap] in Hz'. assert (z' = z) as -> by congruence.
    rewrite (bind_run _ _ _ _ _ Hu).
    assert (Hother : ∀ d', d' ∈ rest →
              deref (alter strip d (heap st)) d' = deref (heap st) d').
    { intros d' Hd'. unfold deref. rewrite lookup_alter_ne; [done |].
      intros <-. apply Hfresh.
      assert (Hin : record_id (heap st) d ∈ Some <$> ids').
      { rewrite <- Hids. by apply list_elem_of_fmap_2. }
      apply list_elem_of_fmap in Hin as (z'' & Hz'' & Hin). congruence. }
    eapply IH; cbn [session heap calls].
    + simpl in Hlen. lia.
    + rewrite Forall_forall in Hrecords. apply Forall_forall. intros d' Hd'.
      rewrite Hother by done. by apply Hrecords.
    + rewrite <- Hids. apply list_fmap_ext. intros i d' Hd'.
      unfold record_id. rewrite Hother; [done |]. by eapply list_elem_of_lookup_2.
    + exact Hnodup.
    + exact Hcards.
    + by eapply ready_next.
Qed.

(** What is left staged by a loop that ran to its end can be committed. *)
Lemma commit_ready s : ready s [] → ∃ committed, Session_flush s = Return committed.
Proof.
  intros (Pa & Pc & Pcc & inserted & pending & Eu & Pu & _ & Hpend).
  assert (∃ us, flush_table (users s) = Return us) as [us Fu].
  { rewrite Eu. destruct Hpend as [-> | (u & z & -> & Nu & Iu & Hz & _)].
    - rewrite app_nil_r. exists inserted. by apply flush_rows_persistent.
    - eexists. by eapply flush_table_keyed. }
  unfold Session_flush, flush_table in *.
  rewrite !flush_rows_persistent by done. rewrite Fu. eauto.
Qed.

(** X12 — the task completes on well-formed input.  From a database
    (a session with nothing staged, whose users refer to stored cards
    and whose keys leave room for the new rows),
    when the fetched ids are ids the lookups can be made for, the new
    records carry all their fields, as strings the columns store, and
    pairwise distinct integer ids in the range of the key column, and
    the card client answers at least as many well-formed records as
    there are new users, the run commits and returns the count of the
    new users: it does not ask for a retry. *)
Theorem sync_users_task_completes user_client credit_card_client st :
  let new := new_users (session st) (heap st) user_client in
  let cards := credit_card_client (Z.of_nat (length new)) in
  lookups_ok (heap st) user_client →
  length new ≤ length cards →
  well_formed (session st) (heap st) new cards →
  ∃ st', sync_users_task user_client credit_card_client st
         = (Completed ("Total new users processed: " +:+ pretty (length new)), st').
Proof.
  intros new cards _ Hlen (Hclean & Hrecords & Hnodup & Hcards & _).
  assert (∃ created st1,
            sync_users user_client credit_card_client st = (Return created, st1) ∧
            ready (session st1) []) as (created & st1 & Hrun & Hready).
  { rewrite sync_users_eq. cbv zeta. fold new. fold cards.
    case_bool_decide.
    - eexists _, _. split; [done |]. cbn [after_diff session].
      apply ready_clean; [done |]. intros z Hz. by apply elem_of_nil in Hz.
    - rewrite bool_decide_eq_false_2 by lia.
      destruct (record_ids _ _ Hrecords) as [ids Hids].
      apply (create_loop_returns_ready _ ids); cbn [after_batch session heap]; try done.
      + rewrite Hids in Hnodup. by apply NoDup_fmap in Hnodup; [| apply _].
      + apply ready_clean; [done |]. intros z Hz.
        assert (Hin : Some z ∈ record_id (heap st) <$> new).
        { rewrite Hids. by apply list_elem_of_fmap_2. }
        apply list_elem_of_fmap in Hin as (d & Hd & Hin).
        by eapply new_user_key_free. }
  destruct (commit_ready _ Hready) as [committed Hcommit].
  pose proof (sync_users_Return_lengths _ _ _ _ _ Hrun) as (Hcount & _).
  unfold sync_users_task. rewrite Hrun, Hcommit. fold new in Hcount.
  rewrite Hcount. eauto.
Qed.

Lemma sync_users_task_completes_witness :
  ∃ st', sync_users_task [0; 1; 2] three_cards fresh_state
         = (Completed "Total new users processed: 3", st').
Proof.
  assert (Hnu : new_users (session fresh_state) (heap fresh_state) [0; 1; 2]
                = [0; 1; 2]) by (vm_compute; reflexivity).
  pose proof (sync_users_task_completes [0; 1; 2] three_cards fresh_state) as Hrun.
  cbv zeta in Hrun. rewrite Hnu in Hrun. apply Hrun.
  - repeat constructor; vm_compute; reflexivity.
  - simpl. lia.
  - split_and!.
    + repeat split; constructor.
    + repeat constructor; vm_compute; reflexivity.
    + apply (bool_decide_unpack _). vm_compute. exact I.
    + repeat constructor; vm_compute; reflexivity.
    + exact cards_linked_empty.
    + exact (room_empty 3).
Defined.

(** X13 — the task is idempotent.  After a run that completed, a second
    run that is given the same directory answer (records with the same
    integer ids) on the database the first run left completes with the
    count 0, whatever the card client would answer; it makes no call but
    [get_users] and the lookups, and leaves the database as it is. *)
Theorem sync_users_task_twice users_data client client' st message st1 st2 :
  sync_users_task users_data client st = (Completed message, st1) →
  Forall (λ d, ∃ z, dict_get (deref (heap st) d) "id" = PInt z) users_data →
  session st2 = session st1 →
  Forall (λ d, dict_get (deref (heap st2) d) "id" = dict_get (deref (heap st) d) "id")
    users_data →
  sync_users_task users_data client' st2
  = (Completed "Total new users processed: 0", after_diff users_data st2).
Proof.
  unfold sync_users_task at 1. intros Hfirst Hint Hsession Hids.
  destruct (sync_users users_data client st) as [[created | exc] st'] eqn:Hrun;
    [| done].
  destruct (Session_flush (session st')) as [committed | exc] eqn:Hcommit; [| done].
  injection Hfirst as _ <-. cbn [session] in Hsession.
  unfold sync_users_task.
  rewrite (sync_users_twice _ _ client' _ _ _ _ _ Hrun Hcommit Hint Hsession Hids).
  cbn [after_diff session heap calls].
  rewrite Session_flush_of_clean by (rewrite Hsession; by eapply Session_flush_clean).
  reflexivity.
Qed.

Lemma sync_users_task_twice_witness :
  ∃ st1,
    (sync_users_task [0; 1; 2] three_cards fresh_state).2 = st1 ∧
    sync_users_task [0; 1; 2] four_cards (mkState (session st1) three_users_heap [])
    = (Completed "Total new users processed: 0",
       after_diff [0; 1; 2] (mkState (session st1) three_users_heap [])).
Proof.
  destruct (sync_users_task [0; 1; 2] three_cards fresh_state) as [r st1] eqn:Hrun.
  assert (Hr : r = Completed "Total new users processed: 3").
  { change r with (r, st1).1. rewrite <- Hrun. vm_compute. reflexivity. }
  subst r. exists st1. split; [reflexivity |].
  apply (sync_users_task_twice _ three_cards four_cards fresh_state _ st1 _ Hrun).
  - repeat constructor; eexists; vm_compute; reflexivity.
  - reflexivity.
  - repeat constructor.
Defined.

(* ================================================================== *)
(** ** The listing *)
(* ================================================================== *)

Lemma get_all_users_elem s i u :
  users s !! i = Some (Persistent, u) → u ∈ get_all_users s.
Proof.
  intros Hi. unfold get_all_users. apply list_elem_of_omap.
  exists (Persistent, u). split; [by eapply list_elem_of_lookup_2 | done].
Qed.

Lemma related_found {T} `{Entity T} z (rows : list (instance_state * T)) ust x :
  find_by_id z rows = Some (ust, x) → related (PInt z) rows = Some x.
Proof. intros Hf. unfold related. by rewrite Hf. Qed.

(** X14 — what was synchronised is what is listed.  After a pass that
    returned and the caller's commit, [get_all_users_data] has, for the
    i-th new record, an entry with the name, e-mail and phone of the
    record (and its id), whose address and company are the [__repr__] of
    rows that carry the entries of the record's nested address and
    company, and whose credit card is the [__repr__] of a row that
    carries the entries of the i-th card record. *)
Theorem sync_users_then_listing str users_data credit_card_client st created st'
    committed :
  sync_users users_data credit_card_client st = (Return created, st') →
  Session_flush (session st') = Return committed →
  ∀ i d,
    new_users (session st) (heap st) users_data !! i = Some d →
    ∃ c entry,
      credit_card_client
        (Z.of_nat (length (new_users (session st) (heap st) users_data))) !! i
        = Some c ∧
      entry ∈ get_all_users_data str committed ∧
      shows str (deref (heap st) d) c entry.
Proof.
  rewrite sync_users_eq. cbv zeta. case_bool_decide as Hnu.
  { intros _ _ i d Hd. by rewrite Hnu in Hd. }
  case_bool_decide as Hshort; [done |]. intros Hloop Hcommit i d Hd.
  pose proof (create_loop_Return_housed _ _ _ _ _ _ Hloop i d Hd) as Hh.
  apply create_loop_Return in Hloop as (_ & _ & _ & _ & _ & Hpairs).
  destruct (Hpairs i d Hd) as (c & Hc & Hp).
  cbn [after_batch session heap] in Hh, Hp.
  apply (paired_flush _ _ _ _ _ Hcommit) in Hp
    as (ust & u & zcc & card & Hu & Hfrom & Hlcc & Hfcc & Hcard).
  apply (housed_flush _ _ Hcommit) in Hh
    as (ust' & u' & za & zc & a & co & ad & cd & Hu' & Hla & Hfa & Had & Hafrom
          & Hlc & Hfc & Hcd & Hcfrom).
  rewrite Hu in Hu'. injection Hu' as <- <-.
  assert (ust = Persistent) as ->.
  { pose proof (Session_flush_clean _ _ Hcommit) as (_ & _ & _ & Pu).
    unfold all_persistent in Pu. rewrite Forall_lookup in Pu. exact (Pu _ _ Hu). }
  exists c, (user_data_of str committed u). split; [done |]. split.
  - unfold get_all_users_data. apply list_elem_of_fmap_2. by eapply get_all_users_elem.
  - destruct Hfrom as (Hid & Hname & _ & Hemail & Hphone & _).
    exists a, co, card, ad, cd. unfold user_data_of.
    rewrite Hla, Hlc, Hlcc.
    rewrite (related_found _ _ _ _ Hfa), (related_found _ _ _ _ Hfc),
      (related_found _ _ _ _ Hfcc). cbn [repr_of].
    split_and!; try done.
    + destruct Hid as [<- | Hid]; [left | by right]. by simplify_map_eq.
    + rewrite <- Hname. by simplify_map_eq.
    + rewrite <- Hemail. by simplify_map_eq.
    + rewrite <- Hphone. by simplify_map_eq.
Qed.

Lemma sync_users_then_listing_witness :
  ∃ entry,
    match Session_flush (session (sync_users [0; 1; 2] three_cards fresh_state).2) with
    | Return committed => entry ∈ get_all_users_data (λ _, "?") committed
    | Raise _ => False
    end ∧
    entry !! "name" = Some (PStr "Test User").
Proof.
  destruct (sync_users [0; 1; 2] three_cards fresh_state) as [r st'] eqn:Hrun.
  assert (Hr : r = Return [0; 1; 2]).
  { change r with (r, st').1. rewrite <- Hrun. vm_compute. reflexivity. }
  subst r. cbn [snd].
  destruct (Session_flush (session st')) as [committed | e] eqn:Hcommit.
  - assert (Hnu : new_users (session fresh_state) (heap fresh_state) [0; 1; 2]
                  = [0; 1; 2]) by (vm_compute; reflexivity).
    assert (Hd : new_users (session fresh_state) (heap fresh_state) [0; 1; 2] !! 0
                 = Some 0) by (by rewrite Hnu).
    destruct (sync_users_then_listing (λ _, "?") _ _ _ _ _ _ Hrun Hcommit 0 0 Hd)
      as (c & entry & _ & Hin & Hshows).
    exists entry. split; [exact Hin |].
    destruct Hshows as (? & ? & ? & ? & ? & _ & -> & _). vm_compute. reflexivity.
  - exfalso.
    assert (Hok : match Session_flush
                          (session (sync_users [0; 1; 2] three_cards fresh_state).2) with
                  | Return _ => True
                  | Raise _ => False
                  end) by (vm_compute; exact I).
    rewrite Hrun in Hok. cbn [snd] in Hok. by rewrite Hcommit in Hok.
Defined.

(** X15 — a user without a card is listed with N/A, and only such a
    user.  The entry of a listed user has ["N/A"] for its credit card
    exactly when the user's [credit_card_id] is [None] or the key of no
    inserted card; otherwise it has the [__repr__] of the first card
    with that key. *)
Theorem listing_credit_card str s u :
  let entry := user_data_of str s u in
  (entry !! "credit_card" = Some (PStr "N/A")
   ↔ related (User.credit_card_id u) (credit_cards s) = None) ∧
  (∀ card, related (User.credit_card_id u) (credit_cards s) = Some card →
           entry !! "credit_card" = Some (PStr (CreditCard_repr str card))) ∧
  (∀ z, User.credit_card_id u = PInt z →
        (related (PInt z) (credit_cards s) = None ↔ z ∉ table_ids (credit_cards s))) ∧
  (User.credit_card_id u = PNone → entry !! "credit_card" = Some (PStr "N/A")).
Proof.
  intros entry. unfold entry, user_data_of.
  assert (Hlook : ∀ v : pyval,
            (<["id" := User.id u]> (<["name" := User.name u]>
              (<["email" := User.email u]> (<["phone" := User.phone u]>
                (<["address" := PStr (repr_of (Address_repr str)
                                        (related (User.address_id u) (addresses s)))]>
                  (<["company" := PStr (repr_of (Company_repr str)
                                          (related (User.company_id u) (companies s)))]>
                    (<["credit_card" := v]> (∅ : pydict))))))))
            !! "credit_card" = Some v).
  { intros v. by simplify_map_eq. }
  rewrite !Hlook. split_and!.
  - destruct (related (User.credit_card_id u) (credit_cards s)) as [card|] eqn:E;
      [| by split].
    split; [| done]. unfold CreditCard_repr. intros Heq. discriminate Heq.
  - by intros card ->.
  - intros z _. unfold related. split.
    + intros Hnone%fmap_None. by apply find_by_id_not_in.
    + intros Hz. apply fmap_None. by apply find_by_id_None.
  - intros ->. done.
Qed.

(* ================================================================== *)
(** ** The keywords of [User], and ids listed twice *)
(* ================================================================== *)

(** X16 — which records [create_user] accepts.  With the three nested
    entries popped, a record that has no entry but user columns gives a
    staged user: its columns are the entries of the record ([None] for a
    column the record lacks), its three keys the arguments.  A record
    that has an entry [address_id], [company_id] or [credit_card_id]
    makes the call of [User] a [TypeError], the keyword being passed
    twice: by then the record has lost its nested entries, and nothing
    is staged. *)
Theorem create_user_spec d address_id company_id credit_card_id st :
  let dict := strip (deref (heap st) d) in
  let st0 := mkState (session st) (alter strip d (heap st))
               (calls st ++ [create_user_call d address_id company_id credit_card_id]) in
  ((∀ k, is_Some (dict !! k) → k ∈ user_columns) →
   create_user d address_id company_id credit_card_id st
   = (Return (length (users (session st))),
      mkState
        (add_user
           (User.mk (dict_get dict "id") (dict_get dict "name")
              (dict_get dict "username") (dict_get dict "email")
              (dict_get dict "phone") (dict_get dict "website")
              address_id company_id credit_card_id)
           (session st)).1
        (heap st0) (calls st0))) ∧
  (∀ k, k ∈ explicit_keywords → is_Some (dict !! k) →
        ∃ msg, create_user d address_id company_id credit_card_id st
               = (Raise (TypeError msg), st0)).
Proof.
  intros dict st0. rewrite create_user_eq. fold dict. fold st0.
  rewrite bind_eq. unfold User_init. split.
  - intros Hcols.
    assert (Hexp : existsb (λ k, bool_decide (is_Some (dict !! k))) explicit_keywords
                   = false).
    { apply not_true_is_false. intros (k & Hk & Hsome)%existsb_exists.
      apply bool_decide_eq_true, Hcols in Hsome.
      unfold explicit_keywords in Hk. unfold user_columns in Hsome. cbn [In] in Hk.
      destruct Hk as [<- | [<- | [<- | []]]]; set_solver. }
    rewrite Hexp.
    rewrite forallb_keys by (intros k Hk; by apply bool_decide_eq_true, Hcols).
    reflexivity.
  - intros k Hk Hsome.
    assert (Hexp : existsb (λ k, bool_decide (is_Some (dict !! k))) explicit_keywords
                   = true).
    { apply existsb_exists. exists k. split; [by apply list_elem_of_In |].
      by apply bool_decide_eq_true. }
    rewrite Hexp. eexists. reflexivity.
Qed.

Lemma NoDup_table_ids_lookup {T} `{Entity T} (rows : list (instance_state * T)) :
  ∀ i j x y z,
    NoDup (table_ids rows) →
    rows !! i = Some (Persistent, x) → rows !! j = Some (Persistent, y) →
    get_id x = PInt z → get_id y = PInt z → i = j.
Proof.
  induction rows as [|r rows IH]; intros i j x y z; [done |].
  rewrite table_ids_cons. intros Hnd Hi Hj Hx Hy.
  destruct i as [|i], j as [|j]; cbn in Hi, Hj; [done | | |].
  - injection Hi as ->. cbn [row_id] in Hnd. rewrite Hx in Hnd.
    apply NoDup_cons in Hnd as [Hnot _]. exfalso. apply Hnot.
    by eapply lookup_table_ids.
  - injection Hj as ->. cbn [row_id] in Hnd. rewrite Hy in Hnd.
    apply NoDup_cons in Hnd as [Hnot _]. exfalso. apply Hnot.
    by eapply lookup_table_ids.
  - f_equal. eapply (IH i j x y z); try done.
    destruct (row_id r); [by apply NoDup_cons in Hnd as [_ ?] | done].
Qed.

(** X17 — an id listed twice stores nothing.  When two of the new
    records of a directory answer carry the same integer id, the run of
    the task does not complete, whatever the card client answers: it
    asks for a retry, and the database holds exactly the rows of before
    the run. *)
Theorem sync_users_task_duplicate_id users_data credit_card_client st i j di dj z :
  keys_unique (session st) →
  new_users (session st) (heap st) users_data !! i = Some di →
  new_users (session st) (heap st) users_data !! j = Some dj →
  i ≠ j →
  dict_get (deref (heap st) di) "id" = PInt z →
  dict_get (deref (heap st) dj) "id" = PInt z →
  ∃ exc st', sync_users_task users_data credit_card_client st = (Retry exc 60, st') ∧
             session st' = session st.
Proof.
  intros Hunique Hi Hj Hij Hzi Hzj. unfold sync_users_task.
  destruct (sync_users users_data credit_card_client st)
    as [[created | exc] st1] eqn:Hrun; [| eauto].
  destruct (Session_flush (session st1)) as [committed | exc] eqn:Hcommit; [| eauto].
  exfalso. apply Hij.
  assert (Hnd : NoDup (table_ids (users committed))).
  { apply (keys_unique_flush _ _ Hcommit).
    assert (Hk : on_session keys_unique_kept st
                   (sync_users users_data credit_card_client st).2).
    { apply (on_session_sync_users keys_unique_kept);
        [intros a s | intros a s | intros a s | intros a s | apply keys_unique_flush];
        intros (? & ? & ? & ?); repeat split; cbn [add_address add_company
          add_credit_card add_user fst addresses companies credit_cards users];
        by rewrite ?table_ids_snoc_pending. }
    rewrite Hrun in Hk. by apply Hk. }
  rewrite sync_users_eq in Hrun. cbv zeta in Hrun. case_bool_decide as Hnu.
  { by rewrite Hnu in Hi. }
  case_bool_decide as Hshort; [done |].
  apply create_loop_Return in Hrun as (_ & _ & _ & _ & _ & Hpairs).
  cbn [after_batch session heap] in Hpairs.
  assert (Hrow : ∀ k d, new_users (session st) (heap st) users_data !! k = Some d →
                        dict_get (deref (heap st) d) "id" = PInt z →
                        ∃ u, users committed !! (length (users (session st)) + k)
                             = Some (Persistent, u) ∧ User.id u = PInt z).
  { intros k d Hk Hz. destruct (Hpairs k d Hk) as (c & _ & Hp).
    apply (paired_flush _ _ _ _ _ Hcommit) in Hp
      as (ust & u & zcc & card & Hu & ([Hid | Hid] & _) & _); [| congruence].
    assert (ust = Persistent) as ->.
    { pose proof (Session_flush_clean _ _ Hcommit) as (_ & _ & _ & Pu).
      unfold all_persistent in Pu. rewrite Forall_lookup in Pu. exact (Pu _ _ Hu). }
    exists u. split; [done | congruence]. }
  destruct (Hrow i di Hi Hzi) as (ui & Hui & Hidi).
  destruct (Hrow j dj Hj Hzj) as (uj & Huj & Hidj).
  pose proof (NoDup_table_ids_lookup _ _ _ _ _ _ Hnd Hui Huj Hidi Hidj). lia.
Qed.

Lemma sync_users_task_duplicate_id_witness :
  ∃ exc st', sync_users_task [0; 1] three_cards twins_state = (Retry exc 60, st') ∧
             session st' = empty_session.
Proof.
  assert (Hnu : new_users (session twins_state) (heap twins_state) [0; 1] = [0; 1])
    by (vm_compute; reflexivity).
  assert (H0 : new_users (session twins_state) (heap twins_state) [0; 1] !! 0 = Some 0)
    by (by rewrite Hnu).
  assert (H1 : new_users (session twins_state) (heap twins_state) [0; 1] !! 1 = Some 1)
    by (by rewrite Hnu).
  assert (Hz0 : dict_get (deref (heap twins_state) 0) "id" = PInt 101)
    by (vm_compute; reflexivity).
  assert (Hz1 : dict_get (deref (heap twins_state) 1) "id" = PInt 101)
    by (vm_compute; reflexivity).
  assert (Hu : keys_unique (session twins_state)).
  { repeat split; vm_compute; constructor. }
  assert (Hne : 0 ≠ 1) by lia.
  exact (sync_users_task_duplicate_id [0; 1] three_cards twins_state 0 1 0 1 101
           Hu H0 H1 Hne Hz0 Hz1).
Defined.
